(** * Papo bot (bot.py): ledger, cooldowns, bonk counter, link log, reminders

    Shallow embedding of the stateful core of [bot.py].  The PostgreSQL
    tables are modelled as Rocq data: [smuckles_users] as a finite map from
    (guild_id, user_id) to points, [smuckles_log], [smuckles_spotify_links]
    and [smuckles_bonk_log] as lists of rows together with their BIGSERIAL
    counters.  The process-local dictionaries [last_give_ts] and
    [last_bonk_ts] are finite maps from user ids to timestamps.  Every
    storage call that the source awaits can fail; the availability of the
    database at each call is an explicit boolean argument, and a failure
    raises (Python exception) with the effects committed so far kept. *)

From stdpp Require Import base gmap list.
From Stdlib Require Import ZArith Ascii String Lia.
From Stdlib Require Import Sorting.Permutation Sorting.Sorted.

Open Scope Z_scope.

(* ------------------------------------------------------------------ *)
(** ** Configuration (bot.py lines 20-35) *)

Definition TARGET_USER_ID : Z := 1028310674318839878.
Definition AUTHORIZED_GIVER_ID : Z := 1422010902680567918.
Definition ADMIN_USER_ID : Z := 939225086341296209.

Definition MULTIPLE_OF : Z := 5.
Definition JACKPOT : Z := 100.
Definition GIVE_COOLDOWN_SECONDS : Z := 8.

Definition BONK_COOLDOWN_SECONDS : Z := 3.
Definition BONK_STREAK_STEP : Z := 10.
Definition BONK_PENALTY_STEP : Z := 20.
Definition BONK_PENALTY_AMOUNT : Z := 5.

(* ------------------------------------------------------------------ *)
(** ** Exceptions and storage results *)

(** What an awaited call can raise: the server being unreachable
    (asyncpg connection errors), a value that does not fit the column
    or parameter type ([BIGINT] points, [INTEGER] delta), or a refused
    [channel.send] (discord.py's [HTTPException], e.g. [Forbidden]). *)
Inductive exc :=
| StorageUnavailable
| NumericOutOfRange
| HTTPException.

Inductive result (A : Type) :=
| Ok (a : A)
| Raise (e : exc).
Arguments Ok {A} a.
Arguments Raise {A} e.

Definition in_int64 (z : Z) : bool := (- 2 ^ 63 <=? z) && (z <=? 2 ^ 63 - 1).
Definition in_int32 (z : Z) : bool := (- 2 ^ 31 <=? z) && (z <=? 2 ^ 31 - 1).

(* ------------------------------------------------------------------ *)
(** ** Ledger tables: [smuckles_users] and [smuckles_log] *)

Record log_row := {
  log_id : Z;
  log_guild : Z;
  log_actor : Z;
  log_target : Z;
  log_delta : Z;
  log_reason : option string
}.

Record ledger := {
  points : gmap (Z * Z) Z;   (* smuckles_users, key (guild_id, user_id) *)
  txlog : list log_row;      (* smuckles_log, in insertion order *)
  txlog_seq : Z              (* next value of the BIGSERIAL id *)
}.

Definition empty_ledger : ledger :=
  {| points := ∅; txlog := []; txlog_seq := 1 |}.

(** [get_points]: [int(row[0]) if row else 0]. *)
Definition points_of (L : ledger) (g u : Z) : Z :=
  default 0 (points L !! (g, u)).

(** [adjust_points]: one transaction doing the upsert at 0 and the
    [points = points + delta] update.  A failure rolls the whole
    transaction back. *)
Definition adjust_points (up : bool) (g t delta : Z) (L : ledger)
  : result ledger :=
  if negb up then Raise StorageUnavailable
  else
    let nv := points_of L g t + delta in
    if in_int64 delta && in_int64 nv
    then Ok {| points := <[(g, t) := nv]> (points L);
               txlog := txlog L; txlog_seq := txlog_seq L |}
    else Raise NumericOutOfRange.

(** [log_txn]: one INSERT into [smuckles_log], on its own pooled
    connection, outside any transaction shared with [adjust_points].  The
    [delta] column is [INTEGER] (32 bits). *)
Definition log_txn (up : bool) (g actor t delta : Z) (reason : option string)
    (L : ledger) : result ledger :=
  if negb up then Raise StorageUnavailable
  else if negb (in_int32 delta) then Raise NumericOutOfRange
  else Ok {| points := points L;
             txlog := txlog L ++ [{| log_id := txlog_seq L; log_guild := g;
                                     log_actor := actor; log_target := t;
                                     log_delta := delta;
                                     log_reason := reason |}];
             txlog_seq := txlog_seq L + 1 |}.

Definition get_points (up : bool) (g u : Z) (L : ledger) : result Z :=
  if up then Ok (points_of L g u) else Raise StorageUnavailable.

(** Availability of the database at the three ledger calls of one
    operation: [adjust_points], [log_txn], [get_points]; for a bonk also
    at [log_bonk] and [today_bonk_count]; and whether [channel.send]
    succeeds (it raises when the bot may not post in the channel). *)
Record io := {
  adjust_up : bool;
  log_up : bool;
  read_up : bool;
  bonklog_up : bool;
  count_up : bool;
  send_up : bool
}.

Definition io_ok : io :=
  {| adjust_up := true; log_up := true; read_up := true;
     bonklog_up := true; count_up := true; send_up := true |}.

(** The common tail of [/give], [/take] and the bonk penalty:
    [await adjust_points(...)]; [await log_txn(...)]; [await get_points(...)].
    Returns the new total, and the ledger as committed when the first
    exception (if any) propagated. *)
Definition ledger_write (net : io) (g actor t delta : Z) (reason : option string)
    (L : ledger) : result Z * ledger :=
  match adjust_points (adjust_up net) g t delta L with
  | Raise e => (Raise e, L)
  | Ok L1 =>
      match log_txn (log_up net) g actor t delta reason L1 with
      | Raise e => (Raise e, L1)
      | Ok L2 =>
          match get_points (read_up net) g t L2 with
          | Raise e => (Raise e, L2)
          | Ok total => (Ok total, L2)
          end
      end
  end.

(* ------------------------------------------------------------------ *)
(** ** Helpers and cooldown gates (lines 278-303) *)

Definition is_admin (user_id : Z) : bool := user_id =? ADMIN_USER_ID.

Definition is_authorized_actor (user_id : Z) : bool :=
  (user_id =? AUTHORIZED_GIVER_ID) || (user_id =? ADMIN_USER_ID).

Definition is_valid_multiple (amount : Z) : bool :=
  (0 <? amount) && (amount mod MULTIPLE_OF =? 0).

(** [last_give_ts] / [last_bonk_ts]: user id to the event-loop time of the
    last allowed action (the loop clock is modelled in integral units). *)
Abbreviation ts_map := (gmap Z Z).

(** [on_cooldown] / [bonk_on_cooldown], parametrised by the duration:
    returns [True] (on cooldown) without stamping, or stamps [now] and
    returns [False]. *)
Definition cooldown_check (dur : Z) (ts : ts_map) (user_id now : Z)
  : bool * ts_map :=
  let last := default 0 (ts !! user_id) in
  if now - last <? dur then (true, ts)
  else (false, <[user_id := now]> ts).

Definition on_cooldown := cooldown_check GIVE_COOLDOWN_SECONDS.
Definition bonk_on_cooldown := cooldown_check BONK_COOLDOWN_SECONDS.

(* ------------------------------------------------------------------ *)
(** ** Text (Python [str] over code points 0..255, i.e. Latin-1) *)

Local Open Scope char_scope.

(** [str.lower] on Latin-1: A-Z and the upper-case letters 0xC0-0xDE
    (except the multiplication sign 0xD7). *)
Definition lower_char (c : ascii) : ascii :=
  let n := nat_of_ascii c in
  if ((65 <=? n)%nat && (n <=? 90)%nat)
     || ((192 <=? n)%nat && (n <=? 222)%nat && negb (n =? 215)%nat)
  then ascii_of_nat (n + 32)%nat else c.

Fixpoint str_lower (s : string) : string :=
  match s with
  | EmptyString => EmptyString
  | String c r => String (lower_char c) (str_lower r)
  end.

(** [str.isspace], which is also what [\s] matches in a [str] pattern. *)
Definition is_space (c : ascii) : bool :=
  let n := nat_of_ascii c in
  ((9 <=? n)%nat && (n <=? 13)%nat) || ((28 <=? n)%nat && (n <=? 32)%nat)
  || (n =? 133)%nat || (n =? 160)%nat.

(** [\w] in a [str] pattern: [str.isalnum()] or underscore. *)
Definition is_word (c : ascii) : bool :=
  let n := nat_of_ascii c in
  ((48 <=? n)%nat && (n <=? 57)%nat) || ((65 <=? n)%nat && (n <=? 90)%nat)
  || (n =? 95)%nat || ((97 <=? n)%nat && (n <=? 122)%nat)
  || (n =? 170)%nat || (n =? 178)%nat || (n =? 179)%nat || (n =? 181)%nat
  || (n =? 185)%nat || (n =? 186)%nat
  || ((188 <=? n)%nat && (n <=? 190)%nat)
  || ((192 <=? n)%nat && (n <=? 214)%nat)
  || ((216 <=? n)%nat && (n <=? 246)%nat)
  || ((248 <=? n)%nat && (n <=? 255)%nat).

(** [s.find(pat)]: index of the first occurrence, [None] for [-1]. *)
Fixpoint str_find (pat s : string) : option nat :=
  if prefix pat s then Some 0%nat
  else match s with
       | EmptyString => None
       | String _ r => option_map S (str_find pat r)
       end.

(** [pat in s]. *)
Definition str_contains (pat s : string) : bool :=
  match str_find pat s with Some _ => true | None => false end.

(** [s[n:]]. *)
Fixpoint str_drop (n : nat) (s : string) : string :=
  match n, s with
  | O, _ => s
  | S _, EmptyString => EmptyString
  | S k, String _ r => str_drop k r
  end.

Fixpoint lstrip (s : string) : string :=
  match s with
  | String c r => if is_space c then lstrip r else s
  | EmptyString => EmptyString
  end.

Fixpoint rstrip (s : string) : string :=
  match s with
  | EmptyString => EmptyString
  | String c r =>
      let r' := rstrip r in
      if is_space c && String.eqb r' EmptyString then EmptyString
      else String c r'
  end.

(** [str.strip()]. *)
Definition strip (s : string) : string := rstrip (lstrip s).

Local Close Scope char_scope.

(* ------------------------------------------------------------------ *)
(** ** The bonk log [smuckles_bonk_log] *)

Record bonk_row := {
  b_id : Z;
  b_guild : Z;
  b_bonker : Z;
  b_target : Z;
  b_channel : Z;
  b_message : Z;
  b_created : Z     (* created_at, in seconds *)
}.

(** [created_at::date]: the calendar day of a timestamp. *)
Definition day_of (t : Z) : Z := t / 86400.

(** Process and database state used by the handlers. *)
Record world := {
  led : ledger;
  last_give_ts : ts_map;
  last_bonk_ts : ts_map;
  bonks : list bonk_row;
  bonks_seq : Z
}.

Definition set_led (w : world) (L : ledger) : world :=
  {| led := L; last_give_ts := last_give_ts w; last_bonk_ts := last_bonk_ts w;
     bonks := bonks w; bonks_seq := bonks_seq w |}.

Definition set_give_ts (w : world) (ts : ts_map) : world :=
  {| led := led w; last_give_ts := ts; last_bonk_ts := last_bonk_ts w;
     bonks := bonks w; bonks_seq := bonks_seq w |}.

Definition set_bonk_ts (w : world) (ts : ts_map) : world :=
  {| led := led w; last_give_ts := last_give_ts w; last_bonk_ts := ts;
     bonks := bonks w; bonks_seq := bonks_seq w |}.

Definition empty_world : world :=
  {| led := empty_ledger; last_give_ts := ∅; last_bonk_ts := ∅;
     bonks := []; bonks_seq := 1 |}.

(* ------------------------------------------------------------------ *)
(** ** [/give] and [/take] (lines 405-451) *)

(** The replies of the two commands; [Granted amount total] is the success
    message carrying the new total. *)
Inductive reply :=
| NotAuthorized
| WrongTarget
| BadAmount
| SlowDown
| Granted (amount total : Z).

Definition is_rejection (r : reply) : bool :=
  match r with Granted _ _ => false | _ => true end.

Definition amount_ok (amount : Z) : bool :=
  is_valid_multiple amount || (amount =? JACKPOT).

Definition give (net : io) (now g actor member amount : Z)
    (reason : option string) (w : world) : result reply * world :=
  if negb (is_authorized_actor actor) then (Ok NotAuthorized, w)
  else if negb (member =? TARGET_USER_ID) then (Ok WrongTarget, w)
  else if negb (amount_ok amount) then (Ok BadAmount, w)
  else
    (* [on_cooldown(...) and not is_admin(...)]: on_cooldown runs first *)
    let '(oc, ts) := on_cooldown (last_give_ts w) actor now in
    let w1 := set_give_ts w ts in
    if oc && negb (is_admin actor) then (Ok SlowDown, w1)
    else
      let '(r, L) := ledger_write net g actor member amount reason (led w1) in
      match r with
      | Ok total => (Ok (Granted amount total), set_led w1 L)
      | Raise e => (Raise e, set_led w1 L)
      end.

Definition take (net : io) (g actor member amount : Z)
    (reason : option string) (w : world) : result reply * world :=
  if negb (is_authorized_actor actor) then (Ok NotAuthorized, w)
  else if negb (member =? TARGET_USER_ID) then (Ok WrongTarget, w)
  else if negb (amount_ok amount) then (Ok BadAmount, w)
  else
    let '(r, L) := ledger_write net g actor member (- amount) reason (led w) in
    match r with
    | Ok total => (Ok (Granted amount total), set_led w L)
    | Raise e => (Raise e, set_led w L)
    end.

(* ------------------------------------------------------------------ *)
(** ** Bonks in [on_message] (lines 677-727) *)

(** Messages the handler sends to the channel. *)
Inductive notice :=
| BonkNotice
| StreakMeme
| PenaltyNotice (count total : Z).

(** [log_bonk]: the new row gets the next id and [created_at = now]. *)
Definition log_bonk (g bonker channel message now : Z) (w : world) : world :=
  {| led := led w; last_give_ts := last_give_ts w; last_bonk_ts := last_bonk_ts w;
     bonks := bonks w ++ [{| b_id := bonks_seq w; b_guild := g;
                             b_bonker := bonker; b_target := TARGET_USER_ID;
                             b_channel := channel; b_message := message;
                             b_created := now |}];
     bonks_seq := bonks_seq w + 1 |}.

(** [today_bonk_count]: rows of the guild against the target whose
    [created_at::date = CURRENT_DATE]. *)
Definition today_bonk_count (g now : Z) (rows : list bonk_row) : Z :=
  Z.of_nat (List.length (List.filter (fun r => (b_guild r =? g)
                                      && (b_target r =? TARGET_USER_ID)
                                      && (day_of (b_created r) =? day_of now))
                           rows)).

(** The body of the [try] block (lines 687-726): log, count once, send
    the meme, then apply the penalty and send its notice.  [bot_user] is
    [bot.user.id] when logged in.  The notices are the [channel.send]
    calls made, a refused one included.  The first exception ends the
    block, and is returned as what the [except] clause catches: a refused
    meme send thus skips the penalty check. *)
Definition record_bonk (net : io) (bot_user : option Z) (now g bonker channel message : Z)
    (w : world) : option exc * list notice * world :=
  if negb (bonklog_up net) then (Some StorageUnavailable, [], w) else
  let w1 := log_bonk g bonker channel message now w in
  if negb (count_up net) then (Some StorageUnavailable, [], w1) else
  let count_today := today_bonk_count g now (bonks w1) in
  let streak := count_today mod BONK_STREAK_STEP =? 0 in
  if streak && negb (send_up net) then (Some HTTPException, [StreakMeme], w1) else
  let memes := if streak then [StreakMeme] else [] in
  if count_today mod BONK_PENALTY_STEP =? 0 then
    let actor_id := default ADMIN_USER_ID bot_user in
    let '(r, L) := ledger_write net g actor_id TARGET_USER_ID (- BONK_PENALTY_AMOUNT)
                     (Some "20-bonk penalty"%string) (led w1) in
    match r with
    | Ok total =>
        let ns := memes ++ [PenaltyNotice count_today total] in
        if send_up net then (None, ns, set_led w1 L)
        else (Some HTTPException, ns, set_led w1 L)
    | Raise e => (Some e, memes, set_led w1 L)
    end
  else (None, memes, w1).

(** The bonk part of [on_message] for a non-bot author; [guild] is
    [message.guild]. *)
Definition on_message_bonk (net : io) (bot_user guild : option Z)
    (now author channel message : Z) (content : string) (w : world)
  : option exc * list notice * world :=
  match guild with
  | Some g =>
      if str_contains "bonk" (str_lower content) then
        let '(oc, ts) := bonk_on_cooldown (last_bonk_ts w) author now in
        let w1 := set_bonk_ts w ts in
        if oc then (None, [], w1)
        else
          let '(e, ns, w2) := record_bonk net bot_user now g author channel message w1 in
          (e, BonkNotice :: ns, w2)
      else (None, [], w)
  | None => (None, [], w)
  end.

(* ------------------------------------------------------------------ *)
(** ** Reminder notes: [extract_reminder_note] (lines 330-339) *)

Local Open Scope char_scope.

(** One literal of length two matched under [re.IGNORECASE]. *)
Definition ci_prefix2 (a b : ascii) (s : string) : option string :=
  match s with
  | String x (String y r) =>
      if Ascii.eqb (lower_char x) a && Ascii.eqb (lower_char y) b
      then Some r else None
  | _ => None
  end.

(** Greedy [\w*]: drop the leading run of word characters. *)
Fixpoint drop_word (s : string) : string :=
  match s with
  | String c r => if is_word c then drop_word r else s
  | EmptyString => EmptyString
  end.

(** [re.sub(r'^(me|us|to|@?\w+)?\s*', '', note, flags=re.IGNORECASE)].
    The anchored pattern matches at most once.  The alternatives of the
    optional group are tried in order and the first that matches is kept
    (the trailing [\s*] always succeeds, so there is no backtracking into
    the group); [@?\w+] needs at least one word character, otherwise the
    group matches the empty string. *)
Definition strip_lead_word (note : string) : string :=
  let rest :=
    match ci_prefix2 "m" "e" note with
    | Some r => r
    | None =>
      match ci_prefix2 "u" "s" note with
      | Some r => r
      | None =>
        match ci_prefix2 "t" "o" note with
        | Some r => r
        | None =>
          match note with
          | String c r =>
              if Ascii.eqb c "@" then
                match r with
                | String c2 r2 => if is_word c2 then drop_word r2 else note
                | EmptyString => note
                end
              else if is_word c then drop_word r else note
          | EmptyString => EmptyString
          end
        end
      end
    end in
  lstrip rest.

Local Close Scope char_scope.

(** Lines 331-337: the stripped text after the first ["remind"], found in
    the lower-cased content and sliced out of the original content.  On
    Latin-1 text [str.lower] turns every character into exactly one
    character, so the index found in [low] is the same position in
    [raw_content].  Outside Latin-1 that can fail ([U+0130] lowers to two
    code points, moving the slice one character right per occurrence);
    this model of text, and what is proved from it, covers Latin-1 text
    only. *)
Definition note_after_remind (raw_content : string) : option string :=
  if String.eqb raw_content EmptyString then None
  else
    match str_find "remind" (str_lower raw_content) with
    | None => None
    | Some idx => Some (strip (str_drop (idx + 6) raw_content))
    end.

Definition extract_reminder_note (raw_content : string) : option string :=
  match note_after_remind raw_content with
  | None => None
  | Some note =>
      let note := strip_lead_word note in
      if String.eqb note EmptyString then None else Some note
  end.

(** Lines 763-776 of [on_message]: the note handed to [save_reminder], if
    any ([note[:500]]); [None] means nothing is saved. *)
Definition reminder_note_to_save (in_guild bot_mentioned : bool) (content : string)
    : option string :=
  if in_guild && bot_mentioned && str_contains "remind" (str_lower content) then
    match extract_reminder_note content with
    | Some note => Some (substring 0 500 note)
    | None => None
    end
  else None.

(* ------------------------------------------------------------------ *)
(** ** Spotify links: [smuckles_spotify_links] (lines 72-83, 151-163) *)

Record link_row := {
  s_id : Z;
  s_guild : Z;
  s_user : Z;
  s_channel : Z;
  s_message : Z;
  s_url : string
}.

Record link_store := {
  links : list link_row;
  links_seq : Z
}.

(** The [UNIQUE (guild_id, user_id, message_id, url)] key. *)
Definition link_key (r : link_row) : Z * Z * Z * string :=
  (s_guild r, s_user r, s_message r, s_url r).

Definition key_eqb (k1 k2 : Z * Z * Z * string) : bool :=
  let '(g1, u1, m1, x1) := k1 in
  let '(g2, u2, m2, x2) := k2 in
  (g1 =? g2) && (u1 =? u2) && (m1 =? m2) && String.eqb x1 x2.

(** [INSERT ... ON CONFLICT DO NOTHING]: the BIGSERIAL default is drawn
    before the conflict check; a conflicting row leaves the table as is. *)
Definition insert_link (up : bool) (g u ch m : Z) (url : string) (S : link_store)
  : result link_store :=
  if negb up then Raise StorageUnavailable
  else
    let row := {| s_id := links_seq S; s_guild := g; s_user := u;
                  s_channel := ch; s_message := m; s_url := url |} in
    if existsb (fun r => key_eqb (link_key r) (link_key row)) (links S)
    then Ok {| links := links S; links_seq := links_seq S + 1 |}
    else Ok {| links := links S ++ [row]; links_seq := links_seq S + 1 |}.

(** The loop of [save_spotify_links]: each INSERT in its own
    [try ... except Exception: pass]; [ups] gives the availability of the
    database at each INSERT (missing entries: available). *)
Fixpoint save_loop (ups : list bool) (g u ch m : Z) (urls : list string)
    (S : link_store) : link_store :=
  match urls with
  | [] => S
  | url :: rest =>
      let S' := match insert_link (hd true ups) g u ch m url S with
                | Ok S' => S'
                | Raise _ => S
                end in
      save_loop (tl ups) g u ch m rest S'
  end.

(** [save_spotify_links] returns [None]: it reports no inserted count. *)
Definition save_spotify_links (ups : list bool) (g u ch m : Z) (urls : list string)
    (S : link_store) : link_store :=
  match urls with
  | [] => S
  | _ => save_loop ups g u ch m urls S
  end.

(** The "dedupe preserving order" loop with its [seen] set. *)
Fixpoint dedupe_aux (seen : list string) (urls : list string) : list string :=
  match urls with
  | [] => []
  | u :: rest =>
      if existsb (String.eqb u) seen then dedupe_aux seen rest
      else u :: dedupe_aux (u :: seen) rest
  end.

(** A message of the channel history.  [m_found] is the concatenation of
    the [SPOTIFY_REGEX.findall] results over [content], then each embed's
    url, description, title and field names and values, in the order in
    which [extract_spotify_from_message] collects them. *)
Record chat_msg := {
  m_author : Z;
  m_id : Z;
  m_found : list string
}.

Definition extract_spotify_from_message (msg : chat_msg) : list string :=
  dedupe_aux [] (m_found msg).

(** [ScanReport]: (scanned, matched_msgs, saved_urls). *)
Definition scan_report : Type := (Z * Z * Z)%type.

Fixpoint scan_loop (ups : Z -> list bool) (g ch : Z) (history : list chat_msg)
    (acc : scan_report) (S : link_store) : scan_report * link_store :=
  match history with
  | [] => (acc, S)
  | msg :: rest =>
      let '(scanned, matched, saved) := acc in
      let scanned := scanned + 1 in
      if m_author msg =? TARGET_USER_ID then
        let urls := extract_spotify_from_message msg in
        match urls with
        | [] => scan_loop ups g ch rest (scanned, matched, saved) S
        | _ =>
            let S' := save_spotify_links (ups (m_id msg)) g TARGET_USER_ID ch
                        (m_id msg) urls S in
            scan_loop ups g ch rest
              (scanned, matched + 1, saved + Z.of_nat (List.length urls)) S'
        end
      else scan_loop ups g ch rest (scanned, matched, saved) S
  end.

(** The scan of [/paposcan] (lines 518-543), once the admin and channel
    permission checks have passed: [history] is the channel history,
    newest first. *)
Definition paposcan (ups : Z -> list bool) (g ch limit : Z) (history : list chat_msg)
    (S : link_store) : scan_report * link_store :=
  let limit := Z.max 50 (Z.min 5000 limit) in
  scan_loop ups g ch (firstn (Z.to_nat limit) history) (0, 0, 0) S.

(* ------------------------------------------------------------------ *)
(** ** Queries with [ORDER BY ... DESC LIMIT n] *)

(** PostgreSQL returns the rows sorted by the key, but fixes no order among
    rows with equal keys: every descending arrangement of the rows is a
    possible answer.  [order_desc_limit key rows n out] says that [out] is
    one possible answer of [ORDER BY key DESC LIMIT n] over [rows]. *)
Definition order_desc_limit {A} (key : A -> Z) (rows : list A) (n : nat)
    (out : list A) : Prop :=
  exists sorted, Permutation rows sorted
    /\ Sorted (fun a b => key b <= key a) sorted
    /\ out = firstn n sorted.

(** [/sandia]: [SELECT user_id, points FROM smuckles_users WHERE guild_id=$1
    ORDER BY points DESC LIMIT $2] with [limit = max(1, min(30, limit))]. *)
Definition users_of_guild (g : Z) (L : ledger) : list (Z * Z) :=
  map (fun kv => (snd (fst kv), snd kv))
      (List.filter (fun kv => fst (fst kv) =? g) (map_to_list (points L))).

Definition sandia (g limit : Z) (L : ledger) (out : list (Z * Z)) : Prop :=
  order_desc_limit snd (users_of_guild g L) (Z.to_nat (Z.max 1 (Z.min 30 limit))) out.

(** The [window] filters of the bonk queries. *)
Definition in_window (window : string) (now : Z) (r : bonk_row) : bool :=
  if String.eqb window "day" then day_of (b_created r) =? day_of now
  else if String.eqb window "week" then now - 7 * 86400 <=? b_created r
  else true.

(** [GROUP BY bonker_id] with a row count per group. *)
Definition group_counts (rows : list bonk_row) : list (Z * Z) :=
  map (fun b => (b, Z.of_nat (List.length (List.filter (fun r => b_bonker r =? b) rows))))
      (nodup Z.eq_dec (map b_bonker rows)).

(** [bonk_leaderboard]: counts per bonker against the target in the
    window, [ORDER BY c DESC LIMIT $3]. *)
Definition bonk_leaderboard (g : Z) (window : string) (limit now : Z)
    (rows : list bonk_row) (out : list (Z * Z)) : Prop :=
  order_desc_limit snd
    (group_counts (List.filter (fun r => (b_guild r =? g) && (b_target r =? TARGET_USER_ID)
                                         && in_window window now r) rows))
    (Z.to_nat limit) out.

(* ------------------------------------------------------------------ *)
(** ** [remove_bonks_for_user] (lines 244-275) *)

Definition bonk_matches (g bonker : Z) (window : string) (now : Z) (r : bonk_row) : bool :=
  (b_guild r =? g) && (b_target r =? TARGET_USER_ID) && (b_bonker r =? bonker)
  && in_window window now r.

(** The [del] CTE: delete every row whose id is among the selected ids;
    the result is the number of rows [del] returns. *)
Definition delete_ids (ids : list Z) (rows : list bonk_row) : list bonk_row * Z :=
  let kept := List.filter (fun r => negb (existsb (Z.eqb (b_id r)) ids)) rows in
  (kept, Z.of_nat (List.length rows - List.length kept)).

(** [remove_bonks_for_user g bonker window count now rows rows' n]: the
    call may leave the table [rows'] and return [n].  The [to_del] CTE is
    [ORDER BY created_at DESC LIMIT count] over the matching rows. *)
Definition remove_bonks_for_user (g bonker : Z) (window : string) (count now : Z)
    (rows rows' : list bonk_row) (n : Z) : Prop :=
  if count <=? 0 then rows' = rows /\ n = 0
  else exists to_del,
    order_desc_limit b_created (List.filter (bonk_matches g bonker window now) rows)
      (Z.to_nat count) to_del
    /\ delete_ids (map b_id to_del) rows = (rows', n).

(* ------------------------------------------------------------------ *)
(** ** Ledger operations as one step type *)

(** The three code paths that change balances: [/give], [/take], and a
    chat message handled by the bonk part of [on_message]. *)
Inductive ledger_op :=
| OpGive (now actor member amount : Z) (reason : option string)
| OpTake (actor member amount : Z) (reason : option string)
| OpBonk (now author channel message : Z) (content : string).

(** Runs one operation in guild [g]; returns the exception it raised (for
    the commands) or that the bonk handler's [except] caught. *)
Definition exec_op (net : io) (bot_user : option Z) (g : Z) (op : ledger_op)
    (w : world) : option exc * world :=
  match op with
  | OpGive now actor member amount reason =>
      let '(r, w') := give net now g actor member amount reason w in
      match r with Ok _ => (None, w') | Raise e => (Some e, w') end
  | OpTake actor member amount reason =>
      let '(r, w') := take net g actor member amount reason w in
      match r with Ok _ => (None, w') | Raise e => (Some e, w') end
  | OpBonk now author channel message content =>
      let '(e, _, w') := on_message_bonk net bot_user (Some g) now author channel
                           message content w in
      (e, w')
  end.

(** A sequence of operations, each with its database availability and
    guild. *)
Fixpoint run_ops (bot_user : option Z) (steps : list (io * Z * ledger_op))
    (w : world) : list (option exc) * world :=
  match steps with
  | [] => ([], w)
  | (net, g, op) :: rest =>
      let '(e, w1) := exec_op net bot_user g op w in
      let '(es, w2) := run_ops bot_user rest w1 in
      (e :: es, w2)
  end.

(** Sum of the logged deltas of the guild and account. *)
Definition logged_sum (g a : Z) (log : list log_row) : Z :=
  fold_right Z.add 0
    (map log_delta (List.filter (fun e => (log_guild e =? g) && (log_target e =? a)) log)).

Definition ledger_consistent (L : ledger) : Prop :=
  forall g a, points_of L g a = logged_sum g a (txlog L).

(** The ledger moved by [delta] on [(g, t)] with the log unchanged, or with
    one entry of that delta appended. *)
Definition balance_moved (L L' : ledger) (g t delta : Z) : Prop :=
  points L' = <[(g, t) := points_of L g t + delta]> (points L).

Definition entry_appended (L L' : ledger) (g t delta : Z) : Prop :=
  exists e, txlog L' = txlog L ++ [e]
            /\ log_guild e = g /\ log_target e = t /\ log_delta e = delta.

(* ------------------------------------------------------------------ *)
(** ** Bonk sequences and reminder shapes *)

Definition is_streak (n : notice) : bool :=
  match n with StreakMeme => true | _ => false end.

Definition is_penalty (n : notice) : bool :=
  match n with PenaltyNotice _ _ => true | _ => false end.

Definition count_notices (p : notice -> bool) (ns : list notice) : Z :=
  Z.of_nat (List.length (List.filter p ns)).

(** Records one bonk per event [(now, bonker, channel, message)], with
    the same availability [net] of the database and the channel
    throughout. *)
Fixpoint record_all (net : io) (bot_user : option Z) (g : Z) (evs : list (Z * Z * Z * Z))
    (w : world) : list notice * world :=
  match evs with
  | [] => ([], w)
  | (now, bonker, ch, msg) :: rest =>
      let '(_, ns, w1) := record_bonk net bot_user now g bonker ch msg w in
      let '(ns', w2) := record_all net bot_user g rest w1 in
      (ns ++ ns', w2)
  end.



(** The word is one of [me], [us], [to], in any case. *)
Definition is_reserved_word (w : string) : bool :=
  String.eqb (str_lower w) "me" || String.eqb (str_lower w) "us"
  || String.eqb (str_lower w) "to".




(* ------------------------------------------------------------------ *)
(** ** [SPOTIFY_REGEX] (lines 38-41) and [findall]

    [(https?://(?:open\.spotify\.com|spotify\.link|spoti\.fi)/[^\s>]+)]
    under [re.IGNORECASE], over Latin-1 text: a literal character of the
    pattern (all of them lower case) matches a character whose [str.lower]
    is that character.  Each matcher returns the text it consumed and the
    rest of the input. *)

Local Open Scope char_scope.

(** A literal, case-insensitively. *)
Fixpoint ci_lit (p s : string) : option (string * string) :=
  match p with
  | EmptyString => Some (EmptyString, s)
  | String a p' =>
      match s with
      | String c s' =>
          if Ascii.eqb (lower_char c) a then
            match ci_lit p' s' with
            | Some (m, r) => Some (String c m, r)
            | None => None
            end
          else None
      | EmptyString => None
      end
  end.

(** [[^\s>]]. *)
Definition url_char (c : ascii) : bool := negb (is_space c) && negb (Ascii.eqb c ">").

(** Greedy [[^\s>]*]. *)
Fixpoint url_run (s : string) : string * string :=
  match s with
  | String c r =>
      if url_char c then let '(m, rest) := url_run r in (String c m, rest)
      else (EmptyString, s)
  | EmptyString => (EmptyString, EmptyString)
  end.

(** [/[^\s>]+]: returns (slash, path, rest); the path is not empty. *)
Definition slash_path (s : string) : option (string * string * string) :=
  match ci_lit "/" s with
  | Some (sl, s1) =>
      let '(path, rest) := url_run s1 in
      if String.eqb path EmptyString then None else Some (sl, path, rest)
  | None => None
  end.

Definition spotify_hosts : list string :=
  ["open.spotify.com"; "spotify.link"; "spoti.fi"]%string.

(** The alternation, tried in order; when the rest of the pattern fails
    after an alternative the next one is tried.  Returns
    (host ++ slash, path, rest). *)
Fixpoint try_hosts (hosts : list string) (s : string) : option (string * string * string) :=
  match hosts with
  | [] => None
  | h :: hs =>
      match ci_lit h s with
      | Some (mh, s4) =>
          match slash_path s4 with
          | Some (sl, path, rest) => Some ((mh ++ sl)%string, path, rest)
          | None => try_hosts hs s
          end
      | None => try_hosts hs s
      end
  end.

Definition after_scheme (s : string) : option (string * string * string) :=
  match ci_lit "://" s with
  | Some (mc, s3) =>
      match try_hosts spotify_hosts s3 with
      | Some (mh, path, rest) => Some ((mc ++ mh)%string, path, rest)
      | None => None
      end
  | None => None
  end.

(** A match at the start of [s], as (head, path, rest) with matched text
    [head ++ path].  [s?] is greedy: first with the [s], then without. *)
Definition spotify_match (s : string) : option (string * string * string) :=
  match ci_lit "http" s with
  | Some (mp, s1) =>
      let with_s :=
        match s1 with
        | String c r =>
            if Ascii.eqb (lower_char c) "s" then
              match after_scheme r with
              | Some (h, path, rest) => Some (String c h, path, rest)
              | None => None
              end
            else None
        | EmptyString => None
        end in
      match with_s with
      | Some (h, path, rest) => Some ((mp ++ h)%string, path, rest)
      | None =>
          match after_scheme s1 with
          | Some (h, path, rest) => Some ((mp ++ h)%string, path, rest)
          | None => None
          end
      end
  | None => None
  end.

(** [findall] with one group: scan left to right, after a match go on at
    its end, otherwise one character further.  Every step consumes at
    least one character, so [String.length s] steps suffice. *)
Fixpoint findall_fuel (fuel : nat) (s : string) : list string :=
  match fuel with
  | O => []
  | S fuel' =>
      match spotify_match s with
      | Some (h, path, rest) => (h ++ path)%string :: findall_fuel fuel' rest
      | None =>
          match s with
          | String _ r => findall_fuel fuel' r
          | EmptyString => []
          end
      end
  end.

Definition spotify_regex_findall (s : string) : list string :=
  findall_fuel (String.length s) s.

(** The heads a match can have, in lower case. *)
Definition spotify_heads : list string :=
  ["http://open.spotify.com/"; "https://open.spotify.com/";
   "http://spotify.link/"; "https://spotify.link/";
   "http://spoti.fi/"; "https://spoti.fi/"]%string.

(** What may follow a match in the text: nothing, a space or [>]. *)
Definition url_stop (s : string) : bool :=
  match s with String c _ => negb (url_char c) | EmptyString => true end.

Local Close Scope char_scope.

(** [u] occurs in [s] as a match of the pattern: a head [http://] or
    [https://], one of the three hosts and a slash (in any case), then a
    non-empty path of characters other than whitespace and [>], followed
    in [s] by the end of the text, whitespace or [>]. *)
Definition spotify_url_in (s u : string) : Prop :=
  exists pre head path post,
    s = (pre ++ head ++ path ++ post)%string /\ u = (head ++ path)%string
    /\ In (str_lower head) spotify_heads /\ path <> EmptyString
    /\ forallb url_char (list_ascii_of_string path) = true /\ url_stop post = true.

(* ------------------------------------------------------------------ *)
(** ** Discord messages: [extract_spotify_from_message] (lines 305-328)
    and the Spotify part of [on_message] (lines 730-753) *)

Record embed_field := {
  f_name : option string;
  f_value : option string
}.

Record embed := {
  e_url : option string;
  e_description : option string;
  e_title : option string;
  e_fields : list embed_field
}.

Record discord_message := {
  dm_author : Z;
  dm_author_bot : bool;
  dm_id : Z;
  dm_channel : Z;
  dm_guild : option Z;           (* [message.guild.id], if any *)
  dm_content : option string;    (* [message.content] *)
  dm_embeds : list embed;
  dm_mentions : list Z           (* ids of [message.mentions] *)
}.

(** [if x: urls += SPOTIFY_REGEX.findall(x)]: [None] and the empty string
    are falsy. *)
Definition findall_if (o : option string) : list string :=
  match o with
  | Some s => if String.eqb s EmptyString then [] else spotify_regex_findall s
  | None => []
  end.

(** The [urls] list before the dedupe: the content (empty when [None]),
    then for each embed its url, description and title, and the name and
    value of each field. *)
Definition collect_spotify_urls (m : discord_message) : list string :=
  spotify_regex_findall (default EmptyString (dm_content m))
  ++ flat_map (fun e => findall_if (e_url e) ++ findall_if (e_description e)
                        ++ findall_if (e_title e)
                        ++ flat_map (fun f => findall_if (f_name f) ++ findall_if (f_value f))
                             (e_fields e))
       (dm_embeds m).

(** A history message as [paposcan] hands it to
    [extract_spotify_from_message]. *)
Definition as_chat_msg (m : discord_message) : chat_msg :=
  {| m_author := dm_author m; m_id := dm_id m; m_found := collect_spotify_urls m |}.

(** Lines 730-753: the same collection, the same dedupe, then
    [save_spotify_links] under [try ... except Exception: pass]; the guild
    id is [0] outside a server. *)
Definition on_message_spotify (ups : list bool) (m : discord_message) (S : link_store)
  : link_store :=
  if dm_author m =? TARGET_USER_ID then
    match collect_spotify_urls m with
    | [] => S
    | urls =>
        save_spotify_links ups (default 0 (dm_guild m)) (dm_author m) (dm_channel m)
          (dm_id m) (dedupe_aux [] urls) S
    end
  else S.

(** Every stored link row belongs to the target user. *)
Definition links_of_target (S : link_store) : Prop :=
  Forall (fun r => s_user r = TARGET_USER_ID) (links S).

(** [/paposcan] (lines 514-562): admin only; [can_read] is
    [perms.read_messages and perms.read_message_history]; [history] is what
    [channel.history(limit=limit)] yields, newest first.  Returns the
    report when the scan ran. *)
Definition paposcan_command (ups : Z -> list bool) (actor : Z) (can_read : bool)
    (g ch limit : Z) (history : list chat_msg) (S : link_store)
  : option scan_report * link_store :=
  if negb (actor =? ADMIN_USER_ID) then (None, S)
  else if negb can_read then (None, S)
  else let '(r, S') := paposcan ups g ch limit history S in (Some r, S').

(* ------------------------------------------------------------------ *)
(** ** Reminder bank: [smuckles_reminders] (lines 85-96, 166-187,
    564-617, 757-779) *)

Record reminder_row := {
  rm_id : Z;
  rm_guild : Z;
  rm_author : Z;
  rm_channel : Z;
  rm_message : Z;
  rm_mentions : string;
  rm_note : string;
  rm_created : Z
}.

Record reminder_store := {
  reminders : list reminder_row;
  reminders_seq : Z
}.

(** [guild_id=$1] with [interaction.guild_id] as [$1]: outside a server
    the parameter is [NULL] and the comparison holds for no row. *)
Definition guild_eq (col : Z) (param : option Z) : bool :=
  match param with Some g => col =? g | None => false end.

Definition save_reminder (up : bool) (g author channel message : Z)
    (mentions_text note : string) (now : Z) (R : reminder_store)
  : result reminder_store :=
  if negb up then Raise StorageUnavailable
  else Ok {| reminders := reminders R ++ [{| rm_id := reminders_seq R; rm_guild := g;
                                             rm_author := author; rm_channel := channel;
                                             rm_message := message;
                                             rm_mentions := mentions_text;
                                             rm_note := note; rm_created := now |}];
             reminders_seq := reminders_seq R + 1 |}.

(** [WITH del AS (DELETE ... WHERE p RETURNING 1) SELECT COUNT( * ) FROM del]. *)
Definition delete_reminders_where (p : reminder_row -> bool) (R : reminder_store)
  : Z * reminder_store :=
  let kept := List.filter (fun r => negb (p r)) (reminders R) in
  (Z.of_nat (List.length (reminders R) - List.length kept),
   {| reminders := kept; reminders_seq := reminders_seq R |}).

Definition delete_my_reminders (up : bool) (g : option Z) (author : Z)
    (R : reminder_store) : result (Z * reminder_store) :=
  if negb up then Raise StorageUnavailable
  else Ok (delete_reminders_where
             (fun r => guild_eq (rm_guild r) g && (rm_author r =? author)) R).

Definition clear_remind_bank (up : bool) (g : option Z) (R : reminder_store)
  : result (Z * reminder_store) :=
  if negb up then Raise StorageUnavailable
  else Ok (delete_reminders_where (fun r => guild_eq (rm_guild r) g) R).

(** [/clearmyreminders]: no permission check; replies with the count. *)
Definition clearmyreminders (up : bool) (g : option Z) (actor : Z) (R : reminder_store)
  : result Z * reminder_store :=
  match delete_my_reminders up g actor R with
  | Ok (n, R') => (Ok n, R')
  | Raise e => (Raise e, R)
  end.

Inductive clear_reply :=
| ClearNotAdmin
| Cleared (n : Z).

(** [/clearemindbank]: admin only. *)
Definition clearemindbank (up : bool) (actor : Z) (g : option Z) (R : reminder_store)
  : result clear_reply * reminder_store :=
  if negb (actor =? ADMIN_USER_ID) then (Ok ClearNotAdmin, R)
  else match clear_remind_bank up g R with
       | Ok (n, R') => (Ok (Cleared n), R')
       | Raise e => (Raise e, R)
       end.

(** [/myreminders]: the caller's rows in the server,
    [ORDER BY created_at DESC LIMIT max(1, min(50, limit))]. *)
Definition myreminders (g : option Z) (actor limit : Z) (R : reminder_store)
    (out : list reminder_row) : Prop :=
  order_desc_limit rm_created
    (List.filter (fun r => guild_eq (rm_guild r) g && (rm_author r =? actor)) (reminders R))
    (Z.to_nat (Z.max 1 (Z.min 50 limit))) out.

Inductive bank_reply :=
| BankNotAdmin
| BankEmpty
| BankRows (rows : list reminder_row) (total : Z).

(** [/remindbank]: admin only; the newest rows of the server and the
    server's row count. *)
Definition remindbank (actor : Z) (g : option Z) (limit : Z) (R : reminder_store)
    (reply : bank_reply) : Prop :=
  if negb (actor =? ADMIN_USER_ID) then reply = BankNotAdmin
  else
    let rows := List.filter (fun r => guild_eq (rm_guild r) g) (reminders R) in
    exists out,
      order_desc_limit rm_created rows (Z.to_nat (Z.max 1 (Z.min 50 limit))) out
      /\ reply = match out with
                 | [] => BankEmpty
                 | _ => BankRows out (Z.of_nat (List.length rows))
                 end.

(** [str(n)] for an integer: decimal digits, [-] before a negative. *)
Fixpoint digits_fuel (fuel : nat) (n : Z) (acc : string) : string :=
  match fuel with
  | O => acc
  | S f =>
      let acc' := String (ascii_of_nat (48 + Z.to_nat (n mod 10))%nat) acc in
      if n <? 10 then acc' else digits_fuel f (n / 10) acc'
  end.

Definition str_of_Z (z : Z) : string :=
  let n := Z.abs z in
  let ds := digits_fuel (S (Z.to_nat (Z.log2 n))) n EmptyString in
  if z <? 0 then String "-"%char ds else ds.

(** The mentions joined with a comma and a space, each as [<@id>]; the
    empty string when there are none. *)
Definition mentions_text (ids : list Z) : string :=
  match ids with
  | [] => EmptyString
  | _ => String.concat ", " (map (fun u => ("<@" ++ str_of_Z u ++ ">")%string) ids)
  end.

(** [any(user.id == bot.user.id for user in message.mentions) if bot.user else False]. *)
Definition bot_mentioned (bot_user : option Z) (mentions : list Z) : bool :=
  match bot_user with
  | Some b => existsb (fun u => u =? b) mentions
  | None => false
  end.

(** [[u.id for u in message.mentions if bot.user and u.id != bot.user.id]]. *)
Definition mention_ids (bot_user : option Z) (mentions : list Z) : list Z :=
  match bot_user with
  | Some b => List.filter (fun u => negb (u =? b)) mentions
  | None => []
  end.

(** The reminder part of [on_message]: the note ([note[:500]]) goes to
    [save_reminder] under [try ... except Exception: pass]. *)
Definition on_message_reminder (up : bool) (bot_user : option Z) (now : Z)
    (m : discord_message) (R : reminder_store) : reminder_store :=
  let content := default EmptyString (dm_content m) in
  match dm_guild m with
  | Some g =>
      match reminder_note_to_save true (bot_mentioned bot_user (dm_mentions m)) content with
      | Some note =>
          match save_reminder up g (dm_author m) (dm_channel m) (dm_id m)
                  (mentions_text (mention_ids bot_user (dm_mentions m))) note now R with
          | Ok R' => R'
          | Raise _ => R
          end
      | None => R
      end
  | None => R
  end.

(* ------------------------------------------------------------------ *)
(** ** [on_message] as a whole (lines 669-781) *)

Record bot_state := {
  st_world : world;
  st_links : link_store;
  st_reminders : reminder_store
}.

(** Messages of bots are ignored; otherwise the bonk, Spotify and reminder
    parts run in turn, each catching its own exceptions.  [ups] is the
    availability at the link INSERTs, [rem_up] at [save_reminder]. *)
Definition on_message (net : io) (ups : list bool) (rem_up : bool) (bot_user : option Z)
    (now : Z) (m : discord_message) (st : bot_state) : bot_state :=
  if dm_author_bot m then st
  else
    let content := default EmptyString (dm_content m) in
    let '(_, _, w') := on_message_bonk net bot_user (dm_guild m) now (dm_author m)
                         (dm_channel m) (dm_id m) content (st_world st) in
    {| st_world := w';
       st_links := on_message_spotify ups m (st_links st);
       st_reminders := on_message_reminder rem_up bot_user now m (st_reminders st) |}.

(* ------------------------------------------------------------------ *)
(** ** Bonk commands: [/bonkstats], [/bonktop], [/bonkremove]
    (lines 205-223, 620-667) *)

(** [bonk_counts_for_user]: the three [COUNT] queries, for today, the
    last seven days and all time. *)
Definition bonk_counts_for_user (g bonker now : Z) (rows : list bonk_row) : Z * Z * Z :=
  (Z.of_nat (List.length (List.filter (bonk_matches g bonker "day" now) rows)),
   Z.of_nat (List.length (List.filter (bonk_matches g bonker "week" now) rows)),
   Z.of_nat (List.length (List.filter (bonk_matches g bonker "all" now) rows))).

Definition valid_window (window : string) : bool :=
  String.eqb window "all" || String.eqb window "day" || String.eqb window "week".

Definition window_title (window : string) : string :=
  if String.eqb window "all" then "All-Time"
  else if String.eqb window "day" then "Today" else "This Week".

Inductive bonktop_reply :=
| BadWindow
| NoBonks
| BonkTop (title : string) (rows : list (Z * Z)).

(** [/bonktop]: limit clamped to 1..30, [window.lower().strip()]. *)
Definition bonktop (g limit : Z) (window : string) (now : Z) (rows : list bonk_row)
    (reply : bonktop_reply) : Prop :=
  let limit := Z.max 1 (Z.min 30 limit) in
  let window := strip (str_lower window) in
  if negb (valid_window window) then reply = BadWindow
  else exists out, bonk_leaderboard g window limit now rows out
       /\ reply = match out with
                  | [] => NoBonks
                  | _ => BonkTop (window_title window) out
                  end.

Inductive bonkremove_reply :=
| RemoveNotAdmin
| RemoveBadWindow
| RemoveBadCount
| RemoveNone
| Removed (n : Z).

(** [/bonkremove]: admin only, window checked, [count] in 1..1000. *)
Definition bonkremove (actor g member count : Z) (window : string) (now : Z)
    (rows rows' : list bonk_row) (reply : bonkremove_reply) : Prop :=
  if negb (actor =? ADMIN_USER_ID) then rows' = rows /\ reply = RemoveNotAdmin
  else
    let window := strip (str_lower window) in
    if negb (valid_window window) then rows' = rows /\ reply = RemoveBadWindow
    else if (count <=? 0) || (1000 <? count) then rows' = rows /\ reply = RemoveBadCount
    else exists n, remove_bonks_for_user g member window count now rows rows' n
         /\ reply = (if n =? 0 then RemoveNone else Removed n).

(* ------------------------------------------------------------------ *)
(** ** Runs of messages and commands *)

(** Chat messages through the bonk part of [on_message]; an event is
    (availability, guild, loop time, author, channel, message id, content).
    The result lists (time, author) of the events answered with the BONK
    message. *)
Fixpoint bonk_run (bot_user : option Z)
    (evs : list (io * option Z * Z * Z * Z * Z * string)) (w : world)
  : list (Z * Z) * world :=
  match evs with
  | [] => ([], w)
  | (net, guild, now, author, ch, msg, content) :: rest =>
      let '(_, ns, w1) := on_message_bonk net bot_user guild now author ch msg content w in
      let '(acc, w2) := bonk_run bot_user rest w1 in
      match ns with
      | BonkNotice :: _ => ((now, author) :: acc, w2)
      | _ => (acc, w2)
      end
  end.

(** A run of [/give] calls; an event is (availability, guild, loop time,
    actor, member, amount, reason), so one run may span guilds while
    [last_give_ts] is one table for the whole process.  The result lists
    (time, actor) of the calls that passed every check (and went on to
    write the ledger). *)
Fixpoint give_run (evs : list (io * Z * Z * Z * Z * Z * option string)) (w : world)
  : list (Z * Z) * world :=
  match evs with
  | [] => ([], w)
  | (net, g, now, actor, member, amount, reason) :: rest =>
      let '(r, w1) := give net now g actor member amount reason w in
      let '(acc, w2) := give_run rest w1 in
      match r with
      | Ok rep => if is_rejection rep then (acc, w2) else ((now, actor) :: acc, w2)
      | Raise _ => ((now, actor) :: acc, w2)
      end
  end.

(** ** [/papolinks] (lines 480-506) *)










(* ================================================================== *)
(** * Proofs *)

(** ** Cooldown gate *)

Lemma cooldown_check_cases dur ts uid now :
  let last := default 0 (ts !! uid) in
  (now - last < dur /\ cooldown_check dur ts uid now = (true, ts))
  \/ (dur <= now - last /\ cooldown_check dur ts uid now = (false, <[uid := now]> ts)).
Proof.
  unfold cooldown_check; simpl.
  destruct (Z.ltb_spec (now - default 0 (ts !! uid)) dur); [left | right]; auto with zarith.
Qed.

(** C7: [on_cooldown] allows (returns [False]) iff
    [now - last >= GIVE_COOLDOWN_SECONDS] (with [last] defaulting to 0),
    stamps [now] exactly when it allows and leaves the map unchanged when it
    denies; after an allowed call at [t0] a call at [t0 + k] is allowed iff
    [k >= 8]. *)
Theorem on_cooldown_check_and_stamp (ts : ts_map) (uid now : Z) :
  let last := default 0 (ts !! uid) in
  (fst (on_cooldown ts uid now) = false <-> GIVE_COOLDOWN_SECONDS <= now - last)
  /\ (fst (on_cooldown ts uid now) = false ->
      snd (on_cooldown ts uid now) = <[uid := now]> ts)
  /\ (fst (on_cooldown ts uid now) = true -> snd (on_cooldown ts uid now) = ts)
  /\ (forall k, fst (on_cooldown ts uid now) = false ->
        (fst (on_cooldown (snd (on_cooldown ts uid now)) uid (now + k)) = false
         <-> 8 <= k)).
Proof.
  unfold on_cooldown; simpl.
  destruct (cooldown_check_cases GIVE_COOLDOWN_SECONDS ts uid now) as [[Hlt ->] | [Hge ->]];
    simpl; unfold GIVE_COOLDOWN_SECONDS in *.
  - split; [split; intros; [discriminate | lia] |].
    split; [discriminate |]. split; [reflexivity |]. discriminate.
  - split; [split; intros; [lia | reflexivity] |].
    split; [reflexivity |]. split; [discriminate |].
    intros k _.
    destruct (cooldown_check_cases 8 (<[uid:=now]> ts) uid (now + k))
      as [[H1 ->] | [H1 ->]]; simpl; rewrite lookup_insert_eq in H1; simpl in H1;
      split; intros; try discriminate; try reflexivity; lia.
Qed.

Lemma set_give_ts_same (w : world) : set_give_ts w (last_give_ts w) = w.
Proof. destruct w; reflexivity. Qed.

Lemma set_bonk_ts_same (w : world) : set_bonk_ts w (last_bonk_ts w) = w.
Proof. destruct w; reflexivity. Qed.

(** ** [/give] validation *)

Ltac give_cases :=
  repeat split; intros; subst; simpl in *;
  repeat match goal with
         | H : Ok _ = Ok _ |- _ => injection H as <-
         end;
  simpl in *; try discriminate; try contradiction; try congruence; try reflexivity.

(** C3: [/give] checks authorization, then the target, then the amount,
    then the cooldown (admins exempt); the first failing check decides the
    reply, and every rejection leaves the whole state (balances, log and
    cooldown stamps) unchanged. *)
Theorem give_validation_order (net : io) (now g actor member amount : Z)
    (reason : option string) (w : world) :
  let res := give net now g actor member amount reason w in
  (is_authorized_actor actor = false -> res = (Ok NotAuthorized, w))
  /\ (is_authorized_actor actor = true -> member <> TARGET_USER_ID ->
      res = (Ok WrongTarget, w))
  /\ (is_authorized_actor actor = true -> member = TARGET_USER_ID ->
      amount_ok amount = false -> res = (Ok BadAmount, w))
  /\ (is_authorized_actor actor = true -> member = TARGET_USER_ID ->
      amount_ok amount = true -> fst (on_cooldown (last_give_ts w) actor now) = true ->
      is_admin actor = false -> res = (Ok SlowDown, w))
  /\ (forall rej, fst res = Ok rej -> is_rejection rej = true -> snd res = w).
Proof.
  cbv zeta. unfold give.
  destruct (is_authorized_actor actor) eqn:Ha; simpl; [| give_cases].
  destruct (Z.eqb_spec member TARGET_USER_ID) as [Hm | Hm]; simpl; [| give_cases].
  destruct (amount_ok amount) eqn:Hamt; simpl; [| give_cases].
  unfold on_cooldown.
  destruct (cooldown_check_cases GIVE_COOLDOWN_SECONDS (last_give_ts w) actor now)
    as [[_ ->] | [_ ->]]; simpl.
  - rewrite set_give_ts_same.
    destruct (is_admin actor) eqn:Hadm; simpl; [| give_cases].
    destruct (ledger_write _ _ _ _ _ _ _) as [[t|e] L]; give_cases.
  - destruct (ledger_write _ _ _ _ _ _ _) as [[t|e] L]; give_cases.
Qed.

(** ** Ledger writes *)

Lemma ledger_write_shape (net : io) (g actor t delta : Z) (reason : option string)
    (L : ledger) :
  let '(r, L') := ledger_write net g actor t delta reason L in
  (L' = L /\ exists e, r = Raise e)
  \/ (balance_moved L L' g t delta /\ entry_appended L L' g t delta)
  \/ (balance_moved L L' g t delta /\ txlog L' = txlog L /\ exists e, r = Raise e).
Proof.
  unfold ledger_write, adjust_points, log_txn, get_points, balance_moved, entry_appended.
  destruct (adjust_up net); simpl; [| left; eauto].
  destruct (in_int64 delta && in_int64 (points_of L g t + delta)); simpl; [| left; eauto].
  destruct (log_up net); simpl; [| right; right; eauto].
  destruct (in_int32 delta); simpl; [| right; right; eauto].
  destruct (read_up net); simpl; right; left;
    (split; [reflexivity | eexists; split; [reflexivity | simpl; auto]]).
Qed.

Lemma led_set_give_ts w ts : led (set_give_ts w ts) = led w.
Proof. reflexivity. Qed.

Lemma led_set_bonk_ts w ts : led (set_bonk_ts w ts) = led w.
Proof. reflexivity. Qed.

Lemma led_log_bonk g b ch m now w : led (log_bonk g b ch m now w) = led w.
Proof. reflexivity. Qed.

Ltac finish_write act t d rs :=
  destruct (ledger_write _ _ _ _ _ _ _) as [[v|e] L] eqn:E; simpl; right;
  exists act, t, d, rs; rewrite E; simpl;
  (split; [reflexivity | intros [e' He']; discriminate]).

(** Every ledger operation either leaves the ledger untouched, or ends
    with one [ledger_write] whose result is the operation's. *)
Lemma exec_op_ledger_write (net : io) (bot_user : option Z) (g : Z) (op : ledger_op)
    (w : world) :
  let '(err, w') := exec_op net bot_user g op w in
  led w' = led w
  \/ exists actor t delta reason,
      let '(r, L') := ledger_write net g actor t delta reason (led w) in
      led w' = L' /\ ((exists e, r = Raise e) -> err <> None).
Proof.
  destruct op as [now actor member amount reason | actor member amount reason
                 | now author channel message content]; simpl.
  - unfold give.
    destruct (is_authorized_actor actor); simpl; [| left; reflexivity].
    destruct (member =? TARGET_USER_ID); simpl; [| left; reflexivity].
    destruct (amount_ok amount); simpl; [| left; reflexivity].
    destruct (on_cooldown (last_give_ts w) actor now) as [oc ts].
    destruct (oc && negb (is_admin actor)); [left; reflexivity |].
    finish_write actor member amount reason.
  - unfold take.
    destruct (is_authorized_actor actor); simpl; [| left; reflexivity].
    destruct (member =? TARGET_USER_ID); simpl; [| left; reflexivity].
    destruct (amount_ok amount); simpl; [| left; reflexivity].
    finish_write actor member (- amount) reason.
  - unfold on_message_bonk.
    destruct (str_contains "bonk" (str_lower content)); [| left; reflexivity].
    destruct (bonk_on_cooldown (last_bonk_ts w) author now) as [oc ts].
    destruct oc; [left; reflexivity |].
    unfold record_bonk.
    destruct (bonklog_up net); cbn [negb]; [| left; reflexivity].
    destruct (count_up net); cbn [negb]; [| left; reflexivity].
    try rewrite led_log_bonk; try rewrite led_set_bonk_ts.
    destruct (send_up net); cbn [negb].
    + rewrite andb_false_r.
      destruct (today_bonk_count g now _ mod BONK_PENALTY_STEP =? 0); [| left; reflexivity].
      finish_write (default ADMIN_USER_ID bot_user) TARGET_USER_ID (- BONK_PENALTY_AMOUNT)
        (Some "20-bonk penalty"%string).
    + rewrite andb_true_r.
      destruct (today_bonk_count g now _ mod BONK_STREAK_STEP =? 0); [left; reflexivity |].
      destruct (today_bonk_count g now _ mod BONK_PENALTY_STEP =? 0); [| left; reflexivity].
      finish_write (default ADMIN_USER_ID bot_user) TARGET_USER_ID (- BONK_PENALTY_AMOUNT)
        (Some "20-bonk penalty"%string).
Qed.

(** C1 (as the code does it): for [/give], [/take] and a bonk message, the
    ledger either is left untouched, or has its balance moved by the
    operation's delta together with one appended log entry of that delta,
    or — only when the operation raised at the audit insert — has its
    balance moved with no log entry.  No path appends a log entry without
    the balance update. *)
Theorem ledger_op_balance_then_log (net : io) (bot_user : option Z) (g : Z)
    (op : ledger_op) (w : world) :
  let '(err, w') := exec_op net bot_user g op w in
  (points (led w') = points (led w) /\ txlog (led w') = txlog (led w))
  \/ exists t delta,
       balance_moved (led w) (led w') g t delta
       /\ (entry_appended (led w) (led w') g t delta
           \/ (txlog (led w') = txlog (led w) /\ err <> None)).
Proof.
  pose proof (exec_op_ledger_write net bot_user g op w) as H.
  destruct (exec_op net bot_user g op w) as [err w'].
  destruct H as [-> | (actor & t & delta & reason & H)]; [left; auto |].
  pose proof (ledger_write_shape net g actor t delta reason (led w)) as Hs.
  destruct (ledger_write net g actor t delta reason (led w)) as [r L'].
  destruct H as [-> Herr].
  destruct Hs as [[-> _] | [[Hb Ha] | [Hb [Hl [e ->]]]]].
  - left; auto.
  - right. exists t, delta. auto.
  - right. exists t, delta. split; [exact Hb |]. right. split; [exact Hl |].
    apply Herr. eauto.
Qed.

(** C1 counterexample: a [/give] whose audit insert fails after the
    balance update commits leaves the balance raised by 15 with an empty
    log. *)
Lemma give_log_failure_unlogged_balance :
  let '(r, w') := give {| adjust_up := true; log_up := false; read_up := true;
                bonklog_up := true; count_up := true; send_up := true |}
                    100 7 AUTHORIZED_GIVER_ID TARGET_USER_ID 15 None empty_world in
  r = Raise StorageUnavailable /\ points_of (led w') 7 TARGET_USER_ID = 15
  /\ txlog (led w') = [].
Proof. vm_compute. auto. Qed.

(** ** Ledger consistency *)

Lemma logged_sum_snoc (g a : Z) (l : list log_row) (e : log_row) :
  logged_sum g a (l ++ [e])
  = logged_sum g a l
    + (if (log_guild e =? g) && (log_target e =? a) then log_delta e else 0).
Proof.
  unfold logged_sum. rewrite List.filter_app, map_app, fold_right_app. simpl.
  destruct ((log_guild e =? g) && (log_target e =? a)); simpl.
  - induction (List.filter _ l) as [| x xs IH]; simpl; lia.
  - induction (List.filter _ l) as [| x xs IH]; simpl; lia.
Qed.

Lemma consistent_after_write (L L' : ledger) (g t delta : Z) :
  ledger_consistent L -> balance_moved L L' g t delta -> entry_appended L L' g t delta ->
  ledger_consistent L'.
Proof.
  intros Hc Hb [e [Hl [Hg [Ht Hd]]]] g' a'.
  unfold points_of. rewrite Hb, Hl, logged_sum_snoc, <- (Hc g' a').
  unfold points_of. rewrite Hg, Ht, Hd.
  destruct (decide ((g, t) = (g', a'))) as [Heq | Hne].
  - injection Heq as <- <-. rewrite lookup_insert_eq, !Z.eqb_refl. reflexivity.
  - rewrite lookup_insert_ne by exact Hne.
    destruct (Z.eqb_spec g g'), (Z.eqb_spec t a'); subst; simpl; try lia.
    congruence.
Qed.

Lemma exec_op_consistent (net : io) (bot_user : option Z) (g : Z) (op : ledger_op)
    (w : world) :
  ledger_consistent (led w) -> fst (exec_op net bot_user g op w) = None ->
  ledger_consistent (led (snd (exec_op net bot_user g op w))).
Proof.
  intros Hc.
  pose proof (ledger_op_balance_then_log net bot_user g op w) as H.
  destruct (exec_op net bot_user g op w) as [err w']; simpl.
  intros ->.
  destruct H as [[Hp Hl] | (t & delta & Hb & [Ha | [_ Hn]])].
  - intros g' a'. unfold points_of. rewrite Hp, Hl. apply Hc.
  - eapply consistent_after_write; eauto.
  - congruence.
Qed.

Lemma empty_ledger_consistent : ledger_consistent empty_ledger.
Proof. intros g a. reflexivity. Qed.

(** C2 (as the code does it): along any sequence of [/give], [/take] and
    bonk messages in which no operation raised (or had its handler catch)
    an exception, the balance of every (guild, user) equals the sum of the
    logged deltas for that pair after every step, starting from a
    consistent ledger (such as the empty one). *)
Theorem run_ops_ledger_consistent (bot_user : option Z)
    (steps : list (io * Z * ledger_op)) (w : world) :
  ledger_consistent (led w) ->
  Forall (fun e => e = None) (fst (run_ops bot_user steps w)) ->
  ledger_consistent (led (snd (run_ops bot_user steps w))).
Proof.
  revert w. induction steps as [| [[net g] op] rest IH]; intros w Hc Hall; simpl in *.
  - exact Hc.
  - pose proof (exec_op_consistent net bot_user g op w Hc) as Hstep.
    destruct (exec_op net bot_user g op w) as [e w1] eqn:E.
    specialize (IH w1).
    destruct (run_ops bot_user rest w1) as [es w2] eqn:E2. simpl in *.
    inversion Hall as [| ? ? He Hrest]; subst.
    apply IH; auto.
Qed.

Lemma run_ops_ledger_consistent_witness :
  ledger_consistent (led (snd (run_ops None
      [(io_ok, 7, OpGive 100 AUTHORIZED_GIVER_ID TARGET_USER_ID 15 None);
       (io_ok, 7, OpTake ADMIN_USER_ID TARGET_USER_ID 5 None)] empty_world))).
Proof.
  apply run_ops_ledger_consistent.
  - apply empty_ledger_consistent.
  - vm_compute. repeat constructor.
Defined.

(** C2 counterexample: a [/take] whose audit insert fails leaves the
    target's balance at -5 while no delta is logged. *)
Lemma take_log_failure_breaks_consistency :
  ~ ledger_consistent (led (snd (take {| adjust_up := true; log_up := false;
                                         read_up := true; bonklog_up := true;
                                         count_up := true; send_up := true |}
                                      7 ADMIN_USER_ID TARGET_USER_ID 5 None empty_world))).
Proof. intros H. specialize (H 7 TARGET_USER_ID). vm_compute in H. discriminate. Qed.

(** ** Bonk streaks and penalties *)




Lemma ledger_write_ok (g actor t delta : Z) (reason : option string) (L : ledger) :
  in_int64 delta && in_int64 (points_of L g t + delta) && in_int32 delta = true ->
  exists L', ledger_write io_ok g actor t delta reason L = (Ok (points_of L g t + delta), L')
             /\ points_of L' g t = points_of L g t + delta.
Proof.
  intros H. apply andb_true_iff in H as [H1 H2].
  unfold ledger_write, adjust_points, log_txn, get_points. simpl.
  rewrite H1, H2. simpl. unfold points_of at 1 3. simpl. rewrite lookup_insert_eq. simpl.
  eexists; split; [reflexivity |]. unfold points_of. simpl. rewrite lookup_insert_eq. reflexivity.
Qed.





(** Twenty bonks by one member at noon of day 100, in guild 7, from the
    empty state. *)
Definition twenty_bonks : list (Z * Z * Z * Z) :=
  map (fun i => let z := Z.of_nat i in (100 * 86400 + 43200 + 4 * z, 42, 1, z)) (seq 1 20).


Example twenty_bonks_two_memes_one_penalty :
  let '(ns, w') := record_all io_ok None 7 twenty_bonks empty_world in
  count_notices is_streak ns = 2 /\ count_notices is_penalty ns = 1
  /\ points_of (led w') 7 TARGET_USER_ID = -5.
Proof. vm_compute. auto. Qed.



(** ** Link ingestion *)

Lemma key_eqb_true (k1 k2 : Z * Z * Z * string) : key_eqb k1 k2 = true <-> k1 = k2.
Proof.
  destruct k1 as [[[g1 u1] m1] x1], k2 as [[[g2 u2] m2] x2]; simpl.
  rewrite !andb_true_iff, !Z.eqb_eq, String.eqb_eq.
  split; [intros [[[-> ->] ->] ->]; reflexivity | intros H; injection H; auto].
Qed.

Lemma insert_link_cases (up : bool) (g u ch m : Z) (url : string) (S : link_store) :
  (insert_link up g u ch m url S = Raise StorageUnavailable)
  \/ (exists S', insert_link up g u ch m url S = Ok S' /\ links S' = links S
                 /\ In (g, u, m, url) (map link_key (links S)))
  \/ (exists S' r, insert_link up g u ch m url S = Ok S' /\ links S' = links S ++ [r]
                   /\ link_key r = (g, u, m, url)
                   /\ ~ In (g, u, m, url) (map link_key (links S))).
Proof.
  unfold insert_link. destruct up; cbn [negb]; [| left; reflexivity].
  right. destruct (existsb _ (links S)) eqn:E.
  - left. eexists; split; [reflexivity | split; [reflexivity |]].
    apply existsb_exists in E as [r [Hr Hk]]. apply key_eqb_true in Hk.
    replace (g, u, m, url) with (link_key r) by exact Hk. apply in_map. exact Hr.
  - right. eexists _, _; split; [reflexivity | split; [reflexivity | split; [reflexivity |]]].
    intros Hin. apply in_map_iff in Hin as [r [Hk Hr]].
    apply Bool.not_true_iff_false in E. apply E.
    apply existsb_exists. exists r. split; [exact Hr | apply key_eqb_true; exact Hk].
Qed.

Lemma save_loop_nodup (ups : list bool) (g u ch m : Z) (urls : list string) :
  forall S, NoDup (map link_key (links S)) ->
  NoDup (map link_key (links (save_loop ups g u ch m urls S))).
Proof.
  revert ups. induction urls as [| url rest IH]; intros ups S H; simpl; [exact H |].
  apply IH.
  destruct (insert_link_cases (hd true ups) g u ch m url S)
    as [-> | [(S' & -> & Hl & _) | (S' & r & -> & Hl & Hk & Hn)]].
  - exact H.
  - rewrite Hl. exact H.
  - rewrite Hl, map_app. simpl. apply NoDup_app. split; [exact H |].
    split; [| apply NoDup_singleton].
    intros x Hx Hx'. apply list_elem_of_singleton in Hx'. subst x.
    rewrite Hk in Hx. apply Hn. apply list_elem_of_In. exact Hx.
Qed.

Lemma save_loop_keeps (ups : list bool) (g u ch m : Z) (urls : list string) :
  forall S k, In k (map link_key (links S)) ->
  In k (map link_key (links (save_loop ups g u ch m urls S))).
Proof.
  revert ups. induction urls as [| url rest IH]; intros ups S k H; simpl; [exact H |].
  apply IH.
  destruct (insert_link_cases (hd true ups) g u ch m url S)
    as [-> | [(S' & -> & Hl & _) | (S' & r & -> & Hl & Hk & Hn)]].
  - exact H.
  - rewrite Hl. exact H.
  - rewrite Hl, map_app. apply in_or_app. left. exact H.
Qed.

(** With the database available, every url ends up stored under its key. *)
Lemma save_loop_stores (g u ch m : Z) (urls : list string) :
  forall S url, In url urls ->
  In (g, u, m, url) (map link_key (links (save_loop [] g u ch m urls S))).
Proof.
  induction urls as [| x rest IH]; intros S url Hin; simpl in *; [contradiction |].
  destruct Hin as [-> | Hin]; [| apply IH; exact Hin].
  apply save_loop_keeps.
  destruct (insert_link_cases true g u ch m url S)
    as [E | [(S' & E & Hl & Hk) | (S' & r & E & Hl & Hk & Hn)]]; simpl.
  - exfalso. unfold insert_link in E. cbn [negb] in E.
    destruct (existsb _ _) in E; discriminate.
  - rewrite E, Hl. exact Hk.
  - rewrite E, Hl, map_app. apply in_or_app. right. rewrite <- Hk. left. reflexivity.
Qed.

(** When every url is already stored under its key, the loop leaves the
    rows unchanged, whatever the availability of the database. *)
Lemma save_loop_present (ups : list bool) (g u ch m : Z) (urls : list string) :
  forall S, (forall url, In url urls -> In (g, u, m, url) (map link_key (links S))) ->
  links (save_loop ups g u ch m urls S) = links S.
Proof.
  revert ups. induction urls as [| url rest IH]; intros ups S Hall; simpl; [reflexivity |].
  destruct (insert_link_cases (hd true ups) g u ch m url S)
    as [-> | [(S' & -> & Hl & _) | (S' & r & -> & Hl & Hk & Hn)]].
  - apply IH. intros x Hx. apply Hall. right. exact Hx.
  - rewrite IH, Hl; [reflexivity |]. intros x Hx. rewrite Hl. apply Hall. right. exact Hx.
  - exfalso. apply Hn. apply Hall. left. reflexivity.
Qed.

(** C6: saving links keeps the key [(guild, user, message, url)] unique in
    the table, whatever INSERTs fail; and saving the same urls for the same
    message again after a save with the database available leaves the rows
    unchanged (the second run never raises: conflicts are absorbed by
    [ON CONFLICT DO NOTHING] and other failures by the [except]). *)
Theorem spotify_save_unique_idempotent (ups : list bool) (g u ch m : Z)
    (urls : list string) (S : link_store) :
  NoDup (map link_key (links S)) ->
  NoDup (map link_key (links (save_spotify_links ups g u ch m urls S)))
  /\ links (save_spotify_links ups g u ch m urls (save_spotify_links [] g u ch m urls S))
     = links (save_spotify_links [] g u ch m urls S).
Proof.
  intros H. split.
  - unfold save_spotify_links. destruct urls; [exact H |]. apply save_loop_nodup. exact H.
  - unfold save_spotify_links. destruct urls as [| x rest]; [reflexivity |].
    apply save_loop_present. intros url Hin. apply save_loop_stores. exact Hin.
Qed.

Definition one_link_store : link_store :=
  {| links := [{| s_id := 1; s_guild := 7; s_user := TARGET_USER_ID; s_channel := 1;
                  s_message := 9; s_url := "https://spoti.fi/a"%string |}];
     links_seq := 2 |}.

Lemma spotify_save_unique_idempotent_witness :
  NoDup (map link_key (links one_link_store))
  /\ NoDup (map link_key (links (save_spotify_links [true; false] 7 TARGET_USER_ID 1 9
                                   ["https://spoti.fi/a"%string; "https://spoti.fi/b"%string]
                                   one_link_store)))
  /\ links (save_spotify_links [false] 7 TARGET_USER_ID 1 9 ["https://spoti.fi/b"%string]
             (save_spotify_links [] 7 TARGET_USER_ID 1 9 ["https://spoti.fi/b"%string] one_link_store))
     = links (save_spotify_links [] 7 TARGET_USER_ID 1 9 ["https://spoti.fi/b"%string] one_link_store).
Proof.
  assert (H : NoDup (map link_key (links one_link_store))) by (simpl; apply NoDup_singleton).
  split; [exact H |]. split.
  - apply (spotify_save_unique_idempotent [true; false] 7 TARGET_USER_ID 1 9
             ["https://spoti.fi/a"%string; "https://spoti.fi/b"%string] one_link_store H).
  - apply (spotify_save_unique_idempotent [false] 7 TARGET_USER_ID 1 9
             ["https://spoti.fi/b"%string] one_link_store H).
Defined.

(** ** The backfill scan report *)

Lemma scan_loop_report (ups ups' : Z -> list bool) (g ch : Z) (history : list chat_msg) :
  forall sc mt sv S S',
  fst (scan_loop ups g ch history (sc, mt, sv) S)
  = fst (scan_loop ups' g ch history (sc, mt, sv) S')
  /\ (let '(_, _, sv') := fst (scan_loop ups g ch history (sc, mt, sv) S) in
      sv' = sv + fold_right Z.add 0
                   (map (fun msg => if m_author msg =? TARGET_USER_ID
                                    then Z.of_nat (List.length (extract_spotify_from_message msg))
                                    else 0) history)).
Proof.
  induction history as [| msg rest IH]; intros sc mt sv S S'; simpl.
  - split; [reflexivity | lia].
  - destruct (m_author msg =? TARGET_USER_ID).
    + destruct (extract_spotify_from_message msg) as [| x xs] eqn:E.
      * destruct (IH (sc + 1) mt sv S S') as [H1 H2]. split; [exact H1 |].
        destruct (fst (scan_loop ups g ch rest (sc + 1, mt, sv) S)) as [[a b] c].
        simpl. lia.
      * destruct (IH (sc + 1) (mt + 1) (sv + Z.of_nat (List.length (x :: xs)))
                    (save_spotify_links (ups (m_id msg)) g TARGET_USER_ID ch (m_id msg)
                       (x :: xs) S)
                    (save_spotify_links (ups' (m_id msg)) g TARGET_USER_ID ch (m_id msg)
                       (x :: xs) S')) as [H1 H2].
        split; [exact H1 |]. clear H1. revert H2.
        destruct (fst (scan_loop _ _ _ rest _ _)) as [[a b] c]. simpl. lia.
    + destruct (IH (sc + 1) mt sv S S') as [H1 H2]. split; [exact H1 |].
      destruct (fst (scan_loop ups g ch rest (sc + 1, mt, sv) S)) as [[a b] c].
      simpl. lia.
Qed.

(** C5 (as the code does it): [save_spotify_links] reports no count, and
    the scan's "URLs saved" total is the number of distinct urls extracted
    from the scanned messages of the target, the same whatever the table
    already holds and whichever INSERTs succeed. *)
Theorem paposcan_saved_counts_extracted (ups ups' : Z -> list bool) (g ch limit : Z)
    (history : list chat_msg) (S S' : link_store) :
  fst (paposcan ups g ch limit history S) = fst (paposcan ups' g ch limit history S')
  /\ (let '(_, _, saved) := fst (paposcan ups g ch limit history S) in
      saved = fold_right Z.add 0
                (map (fun msg => if m_author msg =? TARGET_USER_ID
                                 then Z.of_nat (List.length (extract_spotify_from_message msg))
                                 else 0)
                     (firstn (Z.to_nat (Z.max 50 (Z.min 5000 limit))) history))).
Proof.
  unfold paposcan.
  destruct (scan_loop_report ups ups' g ch
              (firstn (Z.to_nat (Z.max 50 (Z.min 5000 limit))) history) 0 0 0 S S')
    as [H1 H2].
  split; [exact H1 |].
  destruct (fst (scan_loop _ _ _ _ _ S)) as [[a b] c]. simpl in *. exact H2.
Qed.

Definition one_link_history : list chat_msg :=
  [{| m_author := TARGET_USER_ID; m_id := 9; m_found := ["https://spoti.fi/a"%string] |}].

(** C5 counterexample: scanning a channel whose one message of the target
    was already ingested inserts nothing, yet reports one saved url. *)
Lemma paposcan_rescan_reports_saved :
  let S0 := snd (paposcan (fun _ => []) 7 1 1000 one_link_history
                   {| links := []; links_seq := 1 |}) in
  let '(report, S1) := paposcan (fun _ => []) 7 1 1000 one_link_history S0 in
  report = (1, 1, 1) /\ links S1 = links S0.
Proof. vm_compute. auto. Qed.

(** ** Leaderboards *)

Lemma HdRel_firstn {A} (R : A -> A -> Prop) (a : A) (n : nat) (l : list A) :
  HdRel R a l -> HdRel R a (firstn n l).
Proof.
  intros H. destruct n as [| n]; [constructor |].
  destruct l as [| b l]; simpl; [constructor |]. inversion H; subst. constructor. assumption.
Qed.

Lemma Sorted_firstn {A} (R : A -> A -> Prop) (n : nat) (l : list A) :
  Sorted R l -> Sorted R (firstn n l).
Proof.
  revert n. induction l as [| a l IH]; intros n H; destruct n as [| n]; simpl.
  1-3: constructor.
  apply Sorted_inv in H as [Hl Hhd].
  constructor; [apply IH; exact Hl | apply HdRel_firstn; exact Hhd].
Qed.

Lemma order_desc_limit_sorted {A} (key : A -> Z) (rows : list A) (n : nat) (out : list A) :
  order_desc_limit key rows n out -> Sorted (fun a b => key b <= key a) out.
Proof.
  intros (sorted & _ & Hs & ->). apply Sorted_firstn. exact Hs.
Qed.

(** C8 (as the code does it): both leaderboards list their entries in
    descending order of score (points, bonk count); the queries have no
    tie-breaker, so entries with equal scores come in no fixed order. *)
Theorem leaderboards_sorted_desc (g limit : Z) (L : ledger) (window : string)
    (blimit now : Z) (rows : list bonk_row) (out out' : list (Z * Z)) :
  sandia g limit L out -> bonk_leaderboard g window blimit now rows out' ->
  Sorted (fun a b => snd b <= snd a) out /\ Sorted (fun a b => snd b <= snd a) out'.
Proof.
  intros H1 H2. split; eapply order_desc_limit_sorted; eassumption.
Qed.

(** Users 1 and 2 of guild 7 both hold 10 noodles. *)
Definition tie_ledger : ledger :=
  {| points := <[(7, 1) := 10]> (<[(7, 2) := 10]> ∅); txlog := []; txlog_seq := 1 |}.

Lemma sandia_tie_larger_id_first : sandia 7 10 tie_ledger [(2, 10); (1, 10)].
Proof.
  exists [(2, 10); (1, 10)]. split; [| split].
  - vm_compute. first [apply Permutation_refl | apply perm_swap].
  - repeat constructor; simpl; lia.
  - reflexivity.
Qed.

Lemma leaderboards_sorted_desc_witness :
  Sorted (fun a b => snd b <= snd a) [(2, 10); (1, 10)]
  /\ Sorted (fun a b => snd b <= snd a) ([] : list (Z * Z)).
Proof.
  apply (leaderboards_sorted_desc 7 10 tie_ledger "all"%string 10 0 []).
  - apply sandia_tie_larger_id_first.
  - exists []. split; [constructor | split; [constructor | reflexivity]].
Defined.

(** The tie-break the spec asks for: equal scores in ascending id order. *)
Definition ties_by_ascending_id (out : list (Z * Z)) : Prop :=
  forall i j a b, (i < j)%nat -> out !! i = Some a -> out !! j = Some b ->
                  snd a = snd b -> fst a < fst b.

(** C8 counterexample: with users 1 and 2 tied at 10 noodles, [/sandia]
    may list user 2 first. *)
Lemma sandia_ties_not_by_id :
  ~ (forall out, sandia 7 10 tie_ledger out -> ties_by_ascending_id out).
Proof.
  intros H.
  specialize (H _ sandia_tie_larger_id_first 0%nat 1%nat (2, 10) (1, 10)).
  simpl in H. specialize (H ltac:(lia) eq_refl eq_refl eq_refl). lia.
Qed.

(** ** Removal of recent bonks *)

Lemma in_map_inj_on {A B} (f : A -> B) (l : list A) (x y : A) :
  List.NoDup (map f l) -> In x l -> In y l -> f x = f y -> x = y.
Proof.
  induction l as [| a l IH]; simpl; [contradiction |].
  intros Hnd Hx Hy Hf. inversion Hnd as [| ? ? Hnotin Hnd']; subst.
  destruct Hx as [<- | Hx], Hy as [<- | Hy]; auto.
  - exfalso. apply Hnotin. rewrite Hf. apply in_map. exact Hy.
  - exfalso. apply Hnotin. rewrite <- Hf. apply in_map. exact Hx.
Qed.

Lemma in_firstn_in {A} (n : nat) (l : list A) (x : A) : In x (firstn n l) -> In x l.
Proof.
  intros H. rewrite <- (firstn_skipn n l). apply in_or_app. left. exact H.
Qed.

Lemma NoDup_firstn_of {A} (n : nat) (l : list A) : List.NoDup l -> List.NoDup (firstn n l).
Proof.
  intros H. rewrite <- (firstn_skipn n l) in H. exact (NoDup_app_remove_r _ _ H).
Qed.

Lemma length_filter_split {A} (p : A -> bool) (l : list A) :
  List.length l = (List.length (List.filter p l)
                   + List.length (List.filter (fun x => negb (p x)) l))%nat.
Proof.
  induction l as [| a l IH]; simpl; [reflexivity |].
  destruct (p a); simpl; lia.
Qed.

Lemma StronglySorted_app_rel {A} (R : A -> A -> Prop) (l1 l2 : list A) (x y : A) :
  StronglySorted R (l1 ++ l2) -> In x l1 -> In y l2 -> R x y.
Proof.
  induction l1 as [| a l1 IH]; simpl; [contradiction |].
  intros H Hx Hy. apply StronglySorted_inv in H as [Hs Hf].
  destruct Hx as [<- | Hx].
  - rewrite List.Forall_forall in Hf. apply Hf. apply in_or_app. right. exact Hy.
  - apply IH; assumption.
Qed.

(** C9: with row ids unique (the [BIGSERIAL] key), a call of
    [remove_bonks_for_user] with [count > 0] deletes exactly
    [min(count, #matching)] rows and returns that number; it deletes
    only matching rows, and only rows at least as recent as every
    matching row it keeps; when at most [count] rows match it deletes
    all of them; with [count <= 0] nothing is deleted and it returns 0. *)
Theorem remove_bonks_contract (g bonker : Z) (window : string) (count now : Z)
    (rows rows' : list bonk_row) (n : Z) :
  List.NoDup (map b_id rows) ->
  remove_bonks_for_user g bonker window count now rows rows' n ->
  let M := List.filter (bonk_matches g bonker window now) rows in
  n = Z.of_nat (List.length rows - List.length rows')
  /\ (count <= 0 -> rows' = rows /\ n = 0)
  /\ (0 < count -> n = Z.min count (Z.of_nat (List.length M)))
  /\ (forall r, In r rows' -> In r rows)
  /\ (forall r, In r rows -> ~ In r rows' -> bonk_matches g bonker window now r = true)
  /\ (forall r d, In r rows' -> bonk_matches g bonker window now r = true ->
                  In d rows -> ~ In d rows' -> b_created r <= b_created d)
  /\ (Z.of_nat (List.length M) <= count ->
      forall r, In r rows' -> bonk_matches g bonker window now r = false).
Proof.
  intros Hids Hrm M. unfold remove_bonks_for_user in Hrm.
  destruct (count <=? 0) eqn:Hc.
  - apply Z.leb_le in Hc. destruct Hrm as [-> ->].
    split; [rewrite Nat.sub_diag; reflexivity |].
    split; [auto |]. split; [lia |].
    split; [auto |]. split; [intros r Hr Hn; contradiction |].
    split; [intros r d _ _ Hd Hn; contradiction |].
    intros Hlen r Hr. destruct (bonk_matches g bonker window now r) eqn:Hm; [| reflexivity].
    exfalso. assert (Hin : In r M) by (apply filter_In; auto).
    destruct M; [contradiction | simpl in Hlen; lia].
  - apply Z.leb_gt in Hc.
    destruct Hrm as (to_del & (sorted & Hperm & Hs & Hto) & Hdel).
    unfold delete_ids in Hdel. injection Hdel as Hrows' Hn.
    set (p := fun r : bonk_row => existsb (Z.eqb (b_id r)) (map b_id to_del)) in *.
    assert (Hnd : List.NoDup rows) by exact (NoDup_map_inv _ _ Hids).
    assert (Hsub : forall d, In d to_del -> In d M).
    { intros d Hd. rewrite Hto in Hd. apply in_firstn_in in Hd.
      apply (Permutation_in _ (Permutation_sym Hperm)). exact Hd. }
    assert (HsubR : forall d, In d to_del -> In d rows).
    { intros d Hd. apply Hsub in Hd. apply filter_In in Hd. tauto. }
    assert (Hp : forall r, In r rows -> p r = true <-> In r to_del).
    { intros r Hr. unfold p. rewrite existsb_exists. split.
      - intros (x & Hx & Heq). apply in_map_iff in Hx as (d & <- & Hd).
        apply Z.eqb_eq in Heq.
        rewrite (in_map_inj_on b_id rows r d Hids Hr (HsubR d Hd) Heq). exact Hd.
      - intros Hd. exists (b_id r). split; [apply in_map; exact Hd | apply Z.eqb_refl]. }
    assert (Hkept : forall r, In r rows' <-> In r rows /\ p r = false).
    { intros r. rewrite <- Hrows', filter_In. unfold p.
      destruct (existsb (Z.eqb (b_id r)) (map b_id to_del)); simpl; intuition congruence. }
    assert (Hss : StronglySorted (fun a b => b_created b <= b_created a) sorted).
    { apply Sorted_StronglySorted; [intros a b c H1 H2; lia | exact Hs]. }
    split; [rewrite <- Hrows'; exact (eq_sym Hn) |].
    split; [lia |].
    split.
    { intros _. rewrite <- Hn.
      change (fun r => negb (existsb (Z.eqb (b_id r)) (map b_id to_del)))
        with (fun x => negb (p x)).
      pose proof (length_filter_split p rows) as Hsplit.
      assert (Hperm2 : Permutation (List.filter p rows) to_del).
      { apply Permutation.NoDup_Permutation.
        - apply List.NoDup_filter. exact Hnd.
        - rewrite Hto. apply NoDup_firstn_of.
          apply (Permutation_NoDup Hperm). apply List.NoDup_filter. exact Hnd.
        - intros x. rewrite filter_In. split.
          + intros [Hx Hpx]. apply (Hp x Hx). exact Hpx.
          + intros Hx. split; [apply HsubR; exact Hx | apply (Hp x (HsubR x Hx)); exact Hx]. }
      apply Permutation_length in Hperm2.
      assert (Hlt : List.length to_del = Nat.min (Z.to_nat count) (List.length M)).
      { rewrite Hto, length_firstn, <- (Permutation_length Hperm). reflexivity. }
      assert (Heq : (List.length rows - List.length (List.filter (fun x => negb (p x)) rows))%nat
                    = List.length to_del) by lia.
      rewrite Heq, Hlt, Nat2Z.inj_min, Z2Nat.id by lia. reflexivity. }
    split; [intros r Hr; apply Hkept in Hr; tauto |].
    split.
    { intros r Hr Hn'. destruct (p r) eqn:Hpr.
      - apply (Hp r Hr) in Hpr. apply Hsub in Hpr. apply filter_In in Hpr. tauto.
      - exfalso. apply Hn'. apply Hkept. auto. }
    split.
    { intros r d Hr Hmr Hd Hnd'.
      apply Hkept in Hr as [Hr Hpr].
      assert (HrS : In r sorted).
      { apply (Permutation_in _ Hperm). apply filter_In. auto. }
      assert (HdD : In d to_del).
      { apply (Hp d Hd). destruct (p d) eqn:Hpd; [reflexivity |].
        exfalso. apply Hnd'. apply Hkept. auto. }
      assert (HrT : In r (skipn (Z.to_nat count) sorted)).
      { rewrite <- (firstn_skipn (Z.to_nat count) sorted) in HrS.
        apply in_app_or in HrS as [HrS | HrS]; [| exact HrS].
        exfalso. rewrite <- Hto in HrS. apply (Hp r Hr) in HrS. congruence. }
      rewrite Hto in HdD.
      rewrite <- (firstn_skipn (Z.to_nat count) sorted) in Hss.
      exact (StronglySorted_app_rel _ _ _ d r Hss HdD HrT). }
    intros Hlen r Hr. apply Hkept in Hr as [Hr Hpr].
    destruct (bonk_matches g bonker window now r) eqn:Hm; [| reflexivity].
    exfalso.
    assert (HrS : In r sorted).
    { apply (Permutation_in _ Hperm). apply filter_In. auto. }
    rewrite firstn_all2 in Hto
      by (rewrite <- (Permutation_length Hperm); fold M; lia).
    subst to_del. apply (Hp r Hr) in HrS. congruence.
Qed.

(** Three bonks by user 5 against the target in guild 7 on day 100, one
    second apart, with ids 1, 2 and 3. *)
Definition three_bonks_today : list bonk_row :=
  map (fun i => {| b_id := i; b_guild := 7; b_bonker := 5; b_target := TARGET_USER_ID;
                   b_channel := 1; b_message := i; b_created := 100 * 86400 + i |})
      [1; 2; 3].

Lemma remove_five_of_three_today :
  remove_bonks_for_user 7 5 "day" 5 (100 * 86400 + 50) three_bonks_today [] 3.
Proof.
  unfold remove_bonks_for_user. simpl.
  exists (rev (List.filter (bonk_matches 7 5 "day" (100 * 86400 + 50)) three_bonks_today)).
  split; [| vm_compute; reflexivity].
  exists (rev (List.filter (bonk_matches 7 5 "day" (100 * 86400 + 50)) three_bonks_today)).
  split; [apply Permutation_rev |]. split; [| reflexivity].
  match goal with
  | |- Sorted ?R ?l => let l' := eval vm_compute in l in change (Sorted R l')
  end.
  repeat constructor; simpl; lia.
Qed.

Lemma remove_bonks_contract_witness :
  let M := List.filter (bonk_matches 7 5 "day" (100 * 86400 + 50)) three_bonks_today in
  3 = Z.of_nat (List.length three_bonks_today - List.length ([] : list bonk_row))
  /\ (5 <= 0 -> ([] : list bonk_row) = three_bonks_today /\ 3 = 0)
  /\ (0 < 5 -> 3 = Z.min 5 (Z.of_nat (List.length M)))
  /\ (forall r, In r [] -> In r three_bonks_today)
  /\ (forall r, In r three_bonks_today -> ~ In r [] ->
                bonk_matches 7 5 "day" (100 * 86400 + 50) r = true)
  /\ (forall r d, In r [] -> bonk_matches 7 5 "day" (100 * 86400 + 50) r = true ->
                  In d three_bonks_today -> ~ In d [] -> b_created r <= b_created d)
  /\ (Z.of_nat (List.length M) <= 5 ->
      forall r, In r [] -> bonk_matches 7 5 "day" (100 * 86400 + 50) r = false).
Proof.
  apply (remove_bonks_contract 7 5 "day" 5 (100 * 86400 + 50) three_bonks_today [] 3).
  - vm_compute. repeat constructor; simpl; intuition lia.
  - exact remove_five_of_three_today.
Defined.

(** ** Reminder notes *)

Local Open Scope char_scope.












Local Close Scope char_scope.



Lemma reminder_not_saved_without_note (in_guild bot_mentioned : bool) (content : string) :
  extract_reminder_note content = None ->
  reminder_note_to_save in_guild bot_mentioned content = None.
Proof.
  intros H. unfold reminder_note_to_save. rewrite H.
  destruct (in_guild && bot_mentioned && str_contains "remind" (str_lower content)); reflexivity.
Qed.

(** The example of the claim: [Bob] is removed. *)
Example remind_bob_to_call :
  extract_reminder_note "<@42> remind Bob to call" = Some "to call"%string.
Proof. vm_compute. reflexivity. Qed.


(** A word that only begins with [me] loses those two letters. *)
Example remind_mehdi_now :
  extract_reminder_note "<@42> remind mehdi now" = Some "hdi now"%string.
Proof. vm_compute. reflexivity. Qed.


(* ================================================================== *)
(** * Further properties of the code *)

(** ** [SPOTIFY_REGEX.findall] *)

Lemma str_app_cons (c : ascii) (a b : string) :
  (String c a ++ b)%string = String c (a ++ b).
Proof. reflexivity. Qed.

Lemma str_app_assoc (a b c : string) : (a ++ b ++ c)%string = ((a ++ b) ++ c)%string.
Proof.
  induction a as [| x a IH]; [reflexivity |].
  rewrite !str_app_cons, IH. reflexivity.
Qed.

Lemma str_lower_app (a b : string) :
  str_lower (a ++ b) = (str_lower a ++ str_lower b)%string.
Proof.
  induction a as [| x a IH]; [reflexivity |].
  rewrite str_app_cons. simpl. rewrite IH. reflexivity.
Qed.

Lemma ci_lit_spec (p s m r : string) :
  ci_lit p s = Some (m, r) -> s = (m ++ r)%string /\ str_lower m = p.
Proof.
  revert s m r; induction p as [| a p IH]; intros s m r H; simpl in H.
  - injection H as H1 H2; subst. split; reflexivity.
  - destruct s as [| c s']; [discriminate |].
    destruct (Ascii.eqb (lower_char c) a) eqn:E; [| discriminate].
    destruct (ci_lit p s') as [[m' r'] |] eqn:E2; [| discriminate].
    injection H as H1 H2; subst. apply Ascii.eqb_eq in E.
    destruct (IH _ _ _ E2) as [-> <-]. simpl. rewrite E. split; reflexivity.
Qed.

Lemma url_run_spec (s m r : string) :
  url_run s = (m, r) ->
  s = (m ++ r)%string /\ forallb url_char (list_ascii_of_string m) = true
  /\ url_stop r = true.
Proof.
  revert m r; induction s as [| c s IH]; intros m r H; simpl in H.
  - injection H as H1 H2; subst. simpl. auto.
  - destruct (url_char c) eqn:E.
    + destruct (url_run s) as [m' r'] eqn:E2. injection H as H1 H2; subst.
      destruct (IH _ _ eq_refl) as (-> & Hf & Hs). simpl. rewrite E, Hf. auto.
    + injection H as H1 H2; subst. simpl. rewrite E. auto.
Qed.

Lemma slash_path_spec (s sl path rest : string) :
  slash_path s = Some (sl, path, rest) ->
  s = (sl ++ path ++ rest)%string /\ str_lower sl = "/"%string /\ path <> EmptyString
  /\ forallb url_char (list_ascii_of_string path) = true /\ url_stop rest = true.
Proof.
  unfold slash_path. destruct (ci_lit "/" s) as [[sl' s1] |] eqn:E; [| discriminate].
  destruct (url_run s1) as [p r] eqn:E2.
  destruct (String.eqb p EmptyString) eqn:E3; [discriminate |].
  intros H. injection H as H1 H2 H3; subst.
  apply ci_lit_spec in E as [-> Hl]. apply url_run_spec in E2 as (-> & Hf & Hs).
  apply String.eqb_neq in E3. auto.
Qed.

Lemma try_hosts_spec (hosts : list string) (s h path rest : string) :
  try_hosts hosts s = Some (h, path, rest) ->
  s = (h ++ path ++ rest)%string
  /\ (exists x, In x hosts /\ str_lower h = (x ++ "/")%string)
  /\ path <> EmptyString /\ forallb url_char (list_ascii_of_string path) = true
  /\ url_stop rest = true.
Proof.
  induction hosts as [| x hs IH]; simpl; [discriminate |].
  destruct (ci_lit x s) as [[mh s4] |] eqn:E.
  - destruct (slash_path s4) as [[[sl p] r] |] eqn:E2.
    + intros H. injection H as H1 H2 H3; subst.
      apply ci_lit_spec in E as [-> Hl]. apply slash_path_spec in E2 as (-> & Hsl & Hp).
      split; [rewrite <- !str_app_assoc; reflexivity |].
      split; [exists x; split; [left; reflexivity |] | exact Hp].
      rewrite str_lower_app, Hl, Hsl. reflexivity.
    + intros H. destruct (IH H) as (Hs & (y & Hy & Hl) & Hp).
      split; [exact Hs | split; [exists y; auto | exact Hp]].
  - intros H. destruct (IH H) as (Hs & (y & Hy & Hl) & Hp).
    split; [exact Hs | split; [exists y; auto | exact Hp]].
Qed.

Lemma after_scheme_spec (s h path rest : string) :
  after_scheme s = Some (h, path, rest) ->
  s = (h ++ path ++ rest)%string
  /\ (exists x, In x spotify_hosts /\ str_lower h = ("://" ++ x ++ "/")%string)
  /\ path <> EmptyString /\ forallb url_char (list_ascii_of_string path) = true
  /\ url_stop rest = true.
Proof.
  unfold after_scheme. destruct (ci_lit "://" s) as [[mc s3] |] eqn:E; [| discriminate].
  destruct (try_hosts spotify_hosts s3) as [[[mh p] r] |] eqn:E2; [| discriminate].
  intros H. injection H as H1 H2 H3; subst.
  apply ci_lit_spec in E as [-> Hl]. apply try_hosts_spec in E2 as (-> & (x & Hx & Hh) & Hp).
  split; [rewrite <- !str_app_assoc; reflexivity |].
  split; [exists x; split; [exact Hx |] | exact Hp].
  rewrite str_lower_app, Hl, Hh. reflexivity.
Qed.

Lemma spotify_heads_of_hosts (x : string) :
  In x spotify_hosts ->
  In ("http" ++ "://" ++ x ++ "/")%string spotify_heads
  /\ In ("https" ++ "://" ++ x ++ "/")%string spotify_heads.
Proof.
  simpl. intros [<- | [<- | [<- | []]]]; simpl; split; auto 10.
Qed.

Lemma spotify_match_spec (s h path rest : string) :
  spotify_match s = Some (h, path, rest) ->
  s = (h ++ path ++ rest)%string /\ In (str_lower h) spotify_heads
  /\ path <> EmptyString /\ forallb url_char (list_ascii_of_string path) = true
  /\ url_stop rest = true.
Proof.
  unfold spotify_match.
  destruct (ci_lit "http" s) as [[mp s1] |] eqn:E; [| discriminate].
  apply ci_lit_spec in E as [-> Hl].
  destruct s1 as [| c r] eqn:Es1.
  - cbv. discriminate.
  - destruct (Ascii.eqb (lower_char c) "s") eqn:Ec.
    + destruct (after_scheme r) as [[[h' p] r'] |] eqn:E2.
      * intros H. injection H as H1 H2 H3; subst.
        apply Ascii.eqb_eq in Ec.
        apply after_scheme_spec in E2 as (-> & (x & Hx & Hh) & Hp).
        split; [rewrite <- !str_app_assoc; reflexivity | split; [| exact Hp]].
        rewrite str_lower_app, Hl. simpl. rewrite Ec, Hh.
        apply (spotify_heads_of_hosts x Hx).
      * destruct (after_scheme (String c r)) as [[[h' p] r'] |] eqn:E3; [| discriminate].
        intros H. injection H as H1 H2 H3; subst.
        apply after_scheme_spec in E3 as (Hs & (x & Hx & Hh) & Hp).
        rewrite Hs. split; [rewrite <- !str_app_assoc; reflexivity | split; [| exact Hp]].
        rewrite str_lower_app, Hl, Hh. apply (spotify_heads_of_hosts x Hx).
    + destruct (after_scheme (String c r)) as [[[h' p] r'] |] eqn:E3; [| discriminate].
      intros H. injection H as H1 H2 H3; subst.
      apply after_scheme_spec in E3 as (Hs & (x & Hx & Hh) & Hp).
      rewrite Hs. split; [rewrite <- !str_app_assoc; reflexivity | split; [| exact Hp]].
      rewrite str_lower_app, Hl, Hh. apply (spotify_heads_of_hosts x Hx).
Qed.

Lemma findall_fuel_sound (n : nat) (s u : string) :
  In u (findall_fuel n s) ->
  exists pre head path post,
    s = (pre ++ head ++ path ++ post)%string /\ u = (head ++ path)%string
    /\ In (str_lower head) spotify_heads /\ path <> EmptyString
    /\ forallb url_char (list_ascii_of_string path) = true /\ url_stop post = true.
Proof.
  revert s; induction n as [| n IH]; intros s H; simpl in H; [contradiction |].
  destruct (spotify_match s) as [[[h p] r] |] eqn:E.
  - apply spotify_match_spec in E as (Hs & Hh & Hp).
    destruct H as [<- | H].
    + exists EmptyString, h, p, r. simpl. auto.
    + destruct (IH r H) as (pre & hd & pa & po & Hr & Hu & Hrest).
      exists (h ++ p ++ pre)%string, hd, pa, po. split; [| auto].
      rewrite Hs, Hr, !str_app_assoc. reflexivity.
  - destruct s as [| c r]; [contradiction |].
    destruct (IH r H) as (pre & hd & pa & po & Hr & Hu & Hrest).
    exists (String c pre), hd, pa, po. split; [| auto].
    rewrite Hr. reflexivity.
Qed.

(** The dedupe loop of [extract_spotify_from_message]. *)
Lemma dedupe_aux_spec (seen urls : list string) :
  List.NoDup (dedupe_aux seen urls)
  /\ (forall u, In u (dedupe_aux seen urls) <-> In u urls /\ ~ In u seen).
Proof.
  revert seen; induction urls as [| x rest IH]; intros seen; simpl.
  - split; [constructor | intros u; split; [contradiction | intros [[] _]]].
  - destruct (existsb (String.eqb x) seen) eqn:E.
    + destruct (IH seen) as [Hnd Hin]. split; [exact Hnd |].
      intros u. rewrite Hin. split.
      * intros [Hu Hs]. auto.
      * intros [[<- | Hu] Hs]; [| auto].
        exfalso. apply Hs. apply existsb_exists in E as [y [Hy Hxy]].
        apply String.eqb_eq in Hxy. subst y. exact Hy.
    + destruct (IH (x :: seen)) as [Hnd Hin]. split.
      * constructor; [| exact Hnd]. rewrite Hin. intros [_ Hs]. apply Hs. left. reflexivity.
      * intros u. simpl. rewrite Hin. split.
        -- intros [<- | [Hu Hs]].
           ++ split; [left; reflexivity |]. intros Hx.
              apply Bool.not_true_iff_false in E. apply E. apply existsb_exists.
              exists x. split; [exact Hx | apply String.eqb_refl].
           ++ split; [right; exact Hu | intros Hs'; apply Hs; right; exact Hs'].
        -- intros [[<- | Hu] Hs]; [left; reflexivity |].
           destruct (String.eqb_spec x u) as [<- | Hne]; [left; reflexivity |].
           right. split; [exact Hu |]. intros [Heq | Hs']; [exact (Hne Heq) | exact (Hs Hs')].
Qed.

(** ** The links table *)

Lemma save_loop_target (ups : list bool) (g ch m : Z) (urls : list string) :
  forall S, links_of_target S ->
  links_of_target (save_loop ups g TARGET_USER_ID ch m urls S).
Proof.
  revert ups. induction urls as [| url rest IH]; intros ups S H; simpl; [exact H |].
  apply IH.
  destruct (insert_link_cases (hd true ups) g TARGET_USER_ID ch m url S)
    as [-> | [(S' & -> & Hl & _) | (S' & r & -> & Hl & Hk & Hn)]].
  - exact H.
  - unfold links_of_target. rewrite Hl. exact H.
  - unfold links_of_target. rewrite Hl. apply Forall_app. split; [exact H |].
    constructor; [| constructor]. unfold link_key in Hk. congruence.
Qed.

Lemma save_spotify_links_target (ups : list bool) (g ch m : Z) (urls : list string)
    (S : link_store) :
  links_of_target S -> links_of_target (save_spotify_links ups g TARGET_USER_ID ch m urls S).
Proof.
  intros H. unfold save_spotify_links. destruct urls; [exact H |]. apply save_loop_target, H.
Qed.

Lemma scan_loop_target (ups : Z -> list bool) (g ch : Z) (history : list chat_msg) :
  forall acc S, links_of_target S -> links_of_target (snd (scan_loop ups g ch history acc S)).
Proof.
  induction history as [| msg rest IH]; intros [[sc mt] sv] S H; simpl; [exact H |].
  destruct (m_author msg =? TARGET_USER_ID); [| apply IH, H].
  destruct (extract_spotify_from_message msg); [apply IH, H |].
  apply IH, save_spotify_links_target, H.
Qed.

Lemma on_message_spotify_target (ups : list bool) (m : discord_message) (S : link_store) :
  links_of_target S -> links_of_target (on_message_spotify ups m S).
Proof.
  intros H. unfold on_message_spotify.
  destruct (dm_author m =? TARGET_USER_ID) eqn:E; [| exact H].
  apply Z.eqb_eq in E. rewrite E.
  destruct (collect_spotify_urls m); [exact H |]. apply save_spotify_links_target, H.
Qed.

(** ** Cooldown stamps along runs *)

Lemma record_bonk_ts (net : io) (bot_user : option Z) (now g bonker ch msg : Z) (w : world) :
  let '(_, _, w') := record_bonk net bot_user now g bonker ch msg w in
  last_bonk_ts w' = last_bonk_ts w /\ last_give_ts w' = last_give_ts w.
Proof.
  unfold record_bonk. lazy zeta.
  destruct (negb (bonklog_up net)); [split; reflexivity |].
  destruct (negb (count_up net)); [split; reflexivity |].
  destruct (_ && negb (send_up net)); [split; reflexivity |].
  destruct (_ mod BONK_PENALTY_STEP =? 0); [| split; reflexivity].
  destruct (ledger_write _ _ _ _ _ _ _) as [[t | e] L]; [destruct (send_up net) |];
    split; reflexivity.
Qed.

Lemma on_message_bonk_stamp (net : io) (bot_user guild : option Z)
    (now author ch msg : Z) (content : string) (w : world) :
  let '(_, ns, w') := on_message_bonk net bot_user guild now author ch msg content w in
  last_give_ts w' = last_give_ts w
  /\ match ns with
     | BonkNotice :: _ =>
         last_bonk_ts w' = <[author := now]> (last_bonk_ts w)
         /\ default 0 (last_bonk_ts w !! author) + BONK_COOLDOWN_SECONDS <= now
     | _ => last_bonk_ts w' = last_bonk_ts w
     end.
Proof.
  unfold on_message_bonk. destruct guild as [g |]; [| split; reflexivity].
  destruct (str_contains _ _); [| split; reflexivity].
  unfold bonk_on_cooldown.
  destruct (cooldown_check_cases BONK_COOLDOWN_SECONDS (last_bonk_ts w) author now)
    as [[Hlt ->] | [Hge ->]]; lazy beta iota zeta.
  - split; reflexivity.
  - pose proof (record_bonk_ts net bot_user now g author ch msg
                  (set_bonk_ts w (<[author:=now]> (last_bonk_ts w)))) as Hr.
    destruct (record_bonk _ _ _ _ _ _ _ _) as [[e ns] w2].
    destruct Hr as [Hb Hg]. split; [exact Hg |]. split; [exact Hb | lia].
Qed.

Lemma bonk_run_spaced_aux (bot_user : option Z)
    (evs : list (io * option Z * Z * Z * Z * Z * string)) :
  forall w,
  (forall a, Forall (fun p => snd p = a ->
                      default 0 (last_bonk_ts w !! a) + BONK_COOLDOWN_SECONDS <= fst p)
               (fst (bonk_run bot_user evs w)))
  /\ ForallOrdPairs (fun p q => snd p = snd q -> fst p + BONK_COOLDOWN_SECONDS <= fst q)
       (fst (bonk_run bot_user evs w)).
Proof.
  induction evs as [| [[[[[[net guild] now] author] ch] msg] content] rest IH]; intros w.
  - split; [intros; constructor | constructor].
  - simpl.
    pose proof (on_message_bonk_stamp net bot_user guild now author ch msg content w) as Hs.
    destruct (on_message_bonk _ _ _ _ _ _ _ _ _) as [[e ns] w1].
    destruct (IH w1) as [Hf Hp].
    destruct (bonk_run bot_user rest w1) as [acc w2]. simpl in Hf, Hp.
    destruct Hs as [_ Hs].
    destruct ns as [| [] ns]; simpl; try (rewrite Hs in Hf; split; assumption).
    destruct Hs as [Hts Hle]. rewrite Hts in Hf.
    split.
    + intros a. constructor.
      * simpl. intros <-. exact Hle.
      * specialize (Hf a). rewrite List.Forall_forall in *.
        intros [t b] Hin Hb. simpl in *. subst b.
        specialize (Hf _ Hin eq_refl). simpl in Hf.
        destruct (Z.eq_dec a author) as [-> | Hne].
        -- rewrite lookup_insert_eq in Hf. simpl in Hf. unfold BONK_COOLDOWN_SECONDS in *. lia.
        -- rewrite lookup_insert_ne in Hf by congruence. exact Hf.
    + constructor; [| exact Hp].
      specialize (Hf author). rewrite List.Forall_forall in *.
      intros [t b] Hin Hb. simpl in *. subst b.
      specialize (Hf _ Hin eq_refl). simpl in Hf.
      rewrite lookup_insert_eq in Hf. simpl in Hf. lia.
Qed.

Lemma give_stamp (net : io) (now g actor member amount : Z) (reason : option string)
    (w : world) :
  let '(r, w') := give net now g actor member amount reason w in
  (forall a, a <> actor -> last_give_ts w' !! a = last_give_ts w !! a)
  /\ (is_admin actor = false ->
      if match r with Ok rep => negb (is_rejection rep) | Raise _ => true end
      then last_give_ts w' !! actor = Some now
           /\ default 0 (last_give_ts w !! actor) + GIVE_COOLDOWN_SECONDS <= now
      else last_give_ts w' !! actor = last_give_ts w !! actor).
Proof.
  unfold give.
  destruct (is_authorized_actor actor); cbn [negb]; [| split; [auto | intros _; reflexivity]].
  destruct (member =? TARGET_USER_ID); cbn [negb]; [| split; [auto | intros _; reflexivity]].
  destruct (amount_ok amount); cbn [negb]; [| split; [auto | intros _; reflexivity]].
  unfold on_cooldown.
  destruct (cooldown_check_cases GIVE_COOLDOWN_SECONDS (last_give_ts w) actor now)
    as [[Hlt ->] | [Hge ->]]; lazy beta iota zeta.
  - destruct (is_admin actor) eqn:Ha; cbn [negb andb].
    + destruct (ledger_write _ _ _ _ _ _ _) as [[t | e] L];
        (split; [auto | intros H; discriminate H]).
    + split; [auto | intros _; reflexivity].
  - cbn [andb].
    destruct (ledger_write _ _ _ _ _ _ _) as [[t | e] L];
      (split; [intros a Ha; cbn; rewrite lookup_insert_ne; auto
              | intros _; cbn; rewrite lookup_insert_eq; split; [reflexivity | lia]]).
Qed.

Lemma give_run_spaced_aux (evs : list (io * Z * Z * Z * Z * Z * option string)) :
  forall w,
  (forall a, is_admin a = false ->
     Forall (fun p => snd p = a ->
               default 0 (last_give_ts w !! a) + GIVE_COOLDOWN_SECONDS <= fst p)
            (fst (give_run evs w)))
  /\ ForallOrdPairs (fun p q => snd p = snd q -> is_admin (snd p) = false ->
                                fst p + GIVE_COOLDOWN_SECONDS <= fst q)
       (fst (give_run evs w)).
Proof.
  induction evs as [| [[[[[[net g] now] actor] member] amount] reason] rest IH]; intros w.
  - split; [intros; constructor | constructor].
  - simpl.
    pose proof (give_stamp net now g actor member amount reason w) as Hs.
    destruct (give net now g actor member amount reason w) as [r w1].
    destruct (IH w1) as [Hf Hp].
    destruct (give_run rest w1) as [acc w2]. simpl in Hf, Hp.
    destruct Hs as [Hother Hself].
    assert (Hres : fst (match r with
                        | Ok rep => if is_rejection rep then (acc, w2)
                                    else ((now, actor) :: acc, w2)
                        | Raise _ => ((now, actor) :: acc, w2)
                        end)
                   = if match r with Ok rep => negb (is_rejection rep) | Raise _ => true end
                     then (now, actor) :: acc else acc).
    { destruct r as [rep | e]; [destruct (is_rejection rep) |]; reflexivity. }
    rewrite Hres. clear Hres. revert Hself.
    destruct (match r with Ok rep => negb (is_rejection rep) | Raise _ => true end);
      intros Hself.
    + split.
      * intros a Ha. constructor.
        -- simpl. intros ->. destruct (Hself Ha) as [_ Hle]. exact Hle.
        -- specialize (Hf a Ha). rewrite List.Forall_forall in *.
           intros [t c] Hin Hc. simpl in *. subst c.
           specialize (Hf _ Hin eq_refl). simpl in Hf.
           destruct (Z.eq_dec a actor) as [-> | Hne].
           ++ destruct (Hself Ha) as [Hts Hle]. rewrite Hts in Hf. simpl in Hf.
              unfold GIVE_COOLDOWN_SECONDS in *. lia.
           ++ rewrite (Hother a Hne) in Hf. exact Hf.
      * constructor; [| exact Hp].
        rewrite List.Forall_forall. intros [t c] Hin Hc Hadm. simpl in *. subst c.
        specialize (Hf actor Hadm). rewrite List.Forall_forall in Hf.
        specialize (Hf _ Hin eq_refl). simpl in Hf.
        destruct (Hself Hadm) as [Hts _]. rewrite Hts in Hf. simpl in Hf. exact Hf.
    + split; [| exact Hp].
      intros a Ha. specialize (Hf a Ha).
      assert (Heq : last_give_ts w1 !! a = last_give_ts w !! a).
      { destruct (Z.eq_dec a actor) as [-> | Hne]; [exact (Hself Ha) | exact (Hother a Hne)]. }
      rewrite Heq in Hf. exact Hf.
Qed.

(** ** Properties *)

Definition empty_links : link_store := {| links := []; links_seq := 1 |}.

Definition empty_reminders : reminder_store := {| reminders := []; reminders_seq := 1 |}.

Definition empty_bot_state : bot_state :=
  {| st_world := empty_world; st_links := empty_links; st_reminders := empty_reminders |}.

(** A message of the target in a server, with one Spotify link. *)
Definition target_link_message : discord_message :=
  {| dm_author := TARGET_USER_ID; dm_author_bot := false; dm_id := 5; dm_channel := 3;
     dm_guild := Some 1; dm_content := Some "see https://spoti.fi/x"%string;
     dm_embeds := []; dm_mentions := [] |}.

(** X1: every url [SPOTIFY_REGEX.findall] returns is a match of the
    pattern in the text: [http://] or [https://], one of the three hosts
    and a slash in any case, a non-empty path without whitespace or [>],
    followed by the end of the text, whitespace or [>]. *)
Theorem spotify_findall_sound (s u : string) :
  In u (spotify_regex_findall s) -> spotify_url_in s u.
Proof. apply findall_fuel_sound. Qed.

Lemma spotify_findall_sound_witness :
  In "HTTPS://Open.Spotify.com/t"%string
     (spotify_regex_findall "see HTTPS://Open.Spotify.com/t now"%string)
  /\ spotify_url_in "see HTTPS://Open.Spotify.com/t now"%string
                    "HTTPS://Open.Spotify.com/t"%string.
Proof.
  split; [vm_compute; left; reflexivity |].
  apply spotify_findall_sound. vm_compute. left. reflexivity.
Defined.

(** X2: [extract_spotify_from_message] returns each url at most once, and
    exactly the urls the regex finds in the content and in the truthy
    embed fields (url, description, title, field names and values). *)
Theorem extract_spotify_distinct (m : discord_message) :
  List.NoDup (extract_spotify_from_message (as_chat_msg m))
  /\ (forall u, In u (extract_spotify_from_message (as_chat_msg m))
                <-> In u (collect_spotify_urls m)).
Proof.
  unfold extract_spotify_from_message, as_chat_msg; simpl.
  destruct (dedupe_aux_spec [] (collect_spotify_urls m)) as [Hnd Hin].
  split; [exact Hnd |]. intros u. rewrite Hin. simpl. tauto.
Qed.

(** X3: the Spotify links table only ever holds rows of the target user:
    [on_message] and [/paposcan] keep that so, whatever the author of the
    message, the caller, the history and the failures of the INSERTs. *)
Theorem links_only_target (net : io) (ups : list bool) (rem_up : bool)
    (bot_user : option Z) (now : Z) (m : discord_message) (st : bot_state)
    (ups' : Z -> list bool) (actor : Z) (can_read : bool) (g ch limit : Z)
    (history : list chat_msg) :
  links_of_target (st_links st) ->
  links_of_target (st_links (on_message net ups rem_up bot_user now m st))
  /\ links_of_target
       (snd (paposcan_command ups' actor can_read g ch limit history (st_links st))).
Proof.
  intros H. split.
  - unfold on_message. destruct (dm_author_bot m); [exact H |].
    destruct (on_message_bonk _ _ _ _ _ _ _ _ _) as [[e ns] w'].
    apply on_message_spotify_target, H.
  - unfold paposcan_command.
    destruct (negb (actor =? ADMIN_USER_ID)); [exact H |].
    destruct (negb can_read); [exact H |].
    unfold paposcan.
    pose proof (scan_loop_target ups' g ch
                  (firstn (Z.to_nat (Z.max 50 (Z.min 5000 limit))) history) (0, 0, 0)
                  (st_links st) H) as Hs.
    destruct (scan_loop _ _ _ _ _ _) as [r S']. exact Hs.
Qed.

Lemma links_only_target_witness :
  links_of_target (st_links empty_bot_state)
  /\ links_of_target (st_links (on_message io_ok [] true None 100 target_link_message
                                  empty_bot_state))
  /\ links_of_target
       (snd (paposcan_command (fun _ => []) ADMIN_USER_ID true 1 3 50
               [as_chat_msg target_link_message] (st_links empty_bot_state))).
Proof.
  assert (H0 : links_of_target (st_links empty_bot_state)) by (vm_compute; constructor).
  split; [exact H0 |].
  exact (links_only_target io_ok [] true None 100 target_link_message empty_bot_state
           (fun _ => []) ADMIN_USER_ID true 1 3 50 [as_chat_msg target_link_message] H0).
Defined.

(** X4: in any run of chat messages, two messages of the same author that
    get the BONK reply are at least [BONK_COOLDOWN_SECONDS] apart in loop
    time, whatever the clock does in between. *)
Theorem bonk_run_cooldown_spacing (bot_user : option Z)
    (evs : list (io * option Z * Z * Z * Z * Z * string)) (w : world) :
  ForallOrdPairs (fun p q => snd p = snd q -> fst p + BONK_COOLDOWN_SECONDS <= fst q)
    (fst (bonk_run bot_user evs w)).
Proof. apply bonk_run_spaced_aux. Qed.

(** X5: in any run of [/give] calls, in one guild or across guilds, two
    calls by the same non-admin actor that pass every check are at least
    [GIVE_COOLDOWN_SECONDS] apart in loop time, since the cooldown table
    is keyed by the user alone; the admin is exempt. *)
Theorem give_run_cooldown_spacing (evs : list (io * Z * Z * Z * Z * Z * option string))
    (w : world) :
  ForallOrdPairs (fun p q => snd p = snd q -> is_admin (snd p) = false ->
                             fst p + GIVE_COOLDOWN_SECONDS <= fst q)
    (fst (give_run evs w)).
Proof. apply give_run_spaced_aux. Qed.

(** The cooldown spans guilds: a second [/give] by the same giver two
    seconds later, in another guild, is refused. *)
Example give_cooldown_spans_guilds :
  fst (give_run [(io_ok, 1, 100, AUTHORIZED_GIVER_ID, TARGET_USER_ID, 5, None);
                 (io_ok, 2, 102, AUTHORIZED_GIVER_ID, TARGET_USER_ID, 5, None)]
                empty_world)
  = [(100, AUTHORIZED_GIVER_ID)].
Proof. vm_compute. reflexivity. Qed.

Lemma points_of_set_eq (L : ledger) (g t v : Z) (tl : list log_row) (sq : Z) :
  points_of {| points := <[(g, t) := v]> (points L); txlog := tl; txlog_seq := sq |} g t = v.
Proof. unfold points_of. simpl. rewrite lookup_insert_eq. reflexivity. Qed.

Lemma points_of_set_ne (L : ledger) (g t v : Z) (tl : list log_row) (sq g' t' : Z) :
  (g', t') <> (g, t) ->
  points_of {| points := <[(g, t) := v]> (points L); txlog := tl; txlog_seq := sq |} g' t'
  = points_of L g' t'.
Proof. intros H. unfold points_of. simpl. rewrite lookup_insert_ne by congruence. reflexivity. Qed.

(** X6: two balance adjustments that both commit give the same ledger
    whichever commits first, since [adjust_points] adds to the stored
    value ([points = points + $1]) instead of writing a value read
    earlier: no update is lost.  On two different balances the other order
    always commits too; on the same balance it does unless the other
    delta alone takes the balance out of the BIGINT range. *)
Theorem adjust_points_commute (g1 t1 d1 g2 t2 d2 : Z) (L L1 L12 : ledger) :
  adjust_points true g1 t1 d1 L = Ok L1 ->
  adjust_points true g2 t2 d2 L1 = Ok L12 ->
  (g1, t1) <> (g2, t2) \/ in_int64 (points_of L g2 t2 + d2) = true ->
  exists L2, adjust_points true g2 t2 d2 L = Ok L2
             /\ adjust_points true g1 t1 d1 L2 = Ok L12.
Proof.
  unfold adjust_points. cbn [negb]. intros H1 H2 Hk.
  destruct (in_int64 d1 && in_int64 (points_of L g1 t1 + d1)) eqn:E1; [| discriminate H1].
  injection H1 as <-.
  apply andb_true_iff in E1 as [Ed1 Ev1].
  destruct (decide ((g1, t1) = (g2, t2))) as [Heq | Hne].
  - injection Heq as <- <-.
    rewrite points_of_set_eq in H2.
    destruct (in_int64 d2 && in_int64 (points_of L g1 t1 + d1 + d2)) eqn:E2;
      [| discriminate H2].
    injection H2 as <-. apply andb_true_iff in E2 as [Ed2 Ev12].
    destruct Hk as [Hk | Hk]; [congruence |].
    rewrite Ed2, Hk. cbn [andb]. eexists; split; [reflexivity |].
    rewrite points_of_set_eq, Ed1.
    replace (points_of L g1 t1 + d2 + d1) with (points_of L g1 t1 + d1 + d2) by lia.
    rewrite Ev12. cbn [andb]. f_equal. f_equal. simpl. rewrite !insert_insert_eq. reflexivity.
  - rewrite points_of_set_ne in H2 by congruence.
    destruct (in_int64 d2 && in_int64 (points_of L g2 t2 + d2)) eqn:E2; [| discriminate H2].
    injection H2 as <-.
    eexists; split; [reflexivity |].
    rewrite points_of_set_ne by congruence. rewrite Ed1, Ev1. cbn [andb].
    f_equal. f_equal. simpl. apply insert_insert_ne. congruence.
Qed.

Lemma adjust_points_commute_witness :
  exists L2, adjust_points true 1 2 (-3) empty_ledger = Ok L2
             /\ adjust_points true 1 2 5 L2
                = Ok {| points := <[(1, 2) := 2]> (<[(1, 2) := 5]> ∅);
                        txlog := []; txlog_seq := 1 |}.
Proof.
  exact (adjust_points_commute 1 2 5 1 2 (-3) empty_ledger
           {| points := <[(1, 2) := 5]> ∅; txlog := []; txlog_seq := 1 |}
           {| points := <[(1, 2) := 2]> (<[(1, 2) := 5]> ∅); txlog := []; txlog_seq := 1 |}
           eq_refl eq_refl (or_intror eq_refl)).
Defined.

(** X7: [/take] never looks at the balance: an authorized take of an
    allowed amount from the target, with the database up, sets the balance
    to balance - amount and reports that total, also when it is negative,
    as long as the numbers fit their columns. *)
Theorem take_no_balance_check (g actor amount : Z) (reason : option string) (w : world) :
  is_authorized_actor actor = true -> amount_ok amount = true -> in_int32 amount = true ->
  in_int64 (points_of (led w) g TARGET_USER_ID - amount) = true ->
  exists w', take io_ok g actor TARGET_USER_ID amount reason w
             = (Ok (Granted amount (points_of (led w) g TARGET_USER_ID - amount)), w')
    /\ points_of (led w') g TARGET_USER_ID = points_of (led w) g TARGET_USER_ID - amount.
Proof.
  intros Ha Hok H32 H64.
  assert (Hpos : 0 < amount).
  { unfold amount_ok, is_valid_multiple, JACKPOT in Hok.
    apply orb_true_iff in Hok as [Hok | Hok].
    - apply andb_true_iff in Hok as [Hok _]. apply Z.ltb_lt in Hok. exact Hok.
    - apply Z.eqb_eq in Hok. lia. }
  destruct (ledger_write_ok g actor TARGET_USER_ID (- amount) reason (led w)) as [L' [HL Hp]].
  { unfold in_int64, in_int32 in *.
    rewrite <- Z.add_opp_r in H64.
    apply andb_true_iff in H32 as [H1 H2]. apply Z.leb_le in H1, H2.
    rewrite H64, andb_true_r.
    repeat rewrite andb_true_iff; repeat split; apply Z.leb_le; lia. }
  unfold take. rewrite Ha, Hok, Z.eqb_refl. cbn [negb]. rewrite HL.
  exists (set_led w L'). rewrite Z.add_opp_r. split; [reflexivity |].
  simpl. rewrite Hp. lia.
Qed.

Lemma take_no_balance_check_witness :
  points_of (led empty_world) 1 TARGET_USER_ID - 5 = -5
  /\ exists w', take io_ok 1 ADMIN_USER_ID TARGET_USER_ID 5 None empty_world
                = (Ok (Granted 5 (points_of (led empty_world) 1 TARGET_USER_ID - 5)), w')
    /\ points_of (led w') 1 TARGET_USER_ID = points_of (led empty_world) 1 TARGET_USER_ID - 5.
Proof.
  split; [vm_compute; reflexivity |].
  apply take_no_balance_check; vm_compute; reflexivity.
Defined.

(** ** Bonk statistics *)

Lemma filter_length_mono {A} (p q : A -> bool) (l : list A) :
  (forall x, p x = true -> q x = true) ->
  (List.length (List.filter p l) <= List.length (List.filter q l))%nat.
Proof.
  intros H. induction l as [| a l IH]; simpl; [lia |].
  destruct (p a) eqn:E; [rewrite (H a E); simpl; lia |].
  destruct (q a); simpl; lia.
Qed.

Lemma same_day_within_week (t now : Z) :
  day_of t = day_of now -> now - 7 * 86400 <= t.
Proof.
  unfold day_of. intros H.
  pose proof (Z.div_mod t 86400 ltac:(lia)) as Ht.
  pose proof (Z.div_mod now 86400 ltac:(lia)) as Hn.
  pose proof (Z.mod_pos_bound t 86400 ltac:(lia)).
  pose proof (Z.mod_pos_bound now 86400 ltac:(lia)).
  rewrite H in Ht. lia.
Qed.

(** X8: the three counts [bonk_counts_for_user] returns for [/bonkstats]
    are ordered: today <= last seven days <= all time. *)
Theorem bonk_counts_ordered (g bonker now : Z) (rows : list bonk_row) :
  let '(today, week, all_time) := bonk_counts_for_user g bonker now rows in
  0 <= today <= week /\ week <= all_time.
Proof.
  unfold bonk_counts_for_user.
  assert (H1 : (List.length (List.filter (bonk_matches g bonker "day" now) rows)
                <= List.length (List.filter (bonk_matches g bonker "week" now) rows))%nat).
  { apply filter_length_mono. intros r. unfold bonk_matches, in_window. simpl.
    rewrite !andb_true_iff. intros [Hm Hd]. split; [exact Hm |].
    apply Z.leb_le, same_day_within_week, Z.eqb_eq, Hd. }
  assert (H2 : (List.length (List.filter (bonk_matches g bonker "week" now) rows)
                <= List.length (List.filter (bonk_matches g bonker "all" now) rows))%nat).
  { apply filter_length_mono. intros r. unfold bonk_matches, in_window. simpl.
    rewrite !andb_true_iff. intros [Hm _]. auto. }
  lia.
Qed.

Lemma NoDup_map_filter {A B} (f : A -> B) (p : A -> bool) (l : list A) :
  List.NoDup (map f l) -> List.NoDup (map f (List.filter p l)).
Proof.
  induction l as [| a l IH]; simpl; [auto |].
  intros H. inversion H as [| ? ? Hn Hnd]; subst.
  destruct (p a); simpl; [| apply IH, Hnd].
  constructor; [| apply IH, Hnd].
  intros Hin. apply Hn. apply in_map_iff in Hin as (x & Hx & Hxin).
  apply filter_In in Hxin as [Hxin _]. rewrite <- Hx. apply in_map, Hxin.
Qed.

Lemma NoDup_map_firstn {A B} (f : A -> B) (n : nat) (l : list A) :
  List.NoDup (map f l) -> List.NoDup (map f (firstn n l)).
Proof.
  intros H. rewrite <- (firstn_skipn n l), map_app in H. exact (NoDup_app_remove_r _ _ H).
Qed.

Lemma group_counts_in (rows : list bonk_row) (b c : Z) :
  In (b, c) (group_counts rows) ->
  c = Z.of_nat (List.length (List.filter (fun r => b_bonker r =? b) rows)) /\ 1 <= c.
Proof.
  unfold group_counts. intros H. apply in_map_iff in H as (b' & Heq & Hb).
  injection Heq as Hb' Hc. subst b' c. split; [reflexivity |].
  apply nodup_In in Hb. apply in_map_iff in Hb as (r & Hr & Hin).
  assert (Hf : In r (List.filter (fun r0 => b_bonker r0 =? b) rows))
    by (apply filter_In; split; [exact Hin | apply Z.eqb_eq; exact Hr]).
  destruct (List.filter _ rows); [contradiction | simpl; lia].
Qed.

Lemma group_counts_fst (rows : list bonk_row) :
  map fst (group_counts rows) = nodup Z.eq_dec (map b_bonker rows).
Proof. unfold group_counts. rewrite map_map. simpl. apply map_id. Qed.

Lemma group_counts_nil (rows : list bonk_row) : group_counts rows = [] -> rows = [].
Proof.
  destruct rows as [| r rs]; [auto |]. intros H.
  apply map_eq_nil in H.
  assert (Hin : In (b_bonker r) (nodup Z.eq_dec (map b_bonker (r :: rs))))
    by (apply nodup_In; left; reflexivity).
  rewrite H in Hin. contradiction.
Qed.

Lemma count_bonker_filter (g b : Z) (window : string) (now : Z) (rows : list bonk_row) :
  List.length (List.filter (fun r => b_bonker r =? b)
                 (List.filter (fun r => (b_guild r =? g) && (b_target r =? TARGET_USER_ID)
                                        && in_window window now r) rows))
  = List.length (List.filter (bonk_matches g b window now) rows).
Proof.
  induction rows as [| r rs IH]; [reflexivity |].
  cbn [List.filter].
  assert (E : bonk_matches g b window now r
              = (b_guild r =? g) && (b_target r =? TARGET_USER_ID) && in_window window now r
                && (b_bonker r =? b)).
  { unfold bonk_matches.
    destruct (b_guild r =? g), (b_target r =? TARGET_USER_ID), (in_window window now r),
      (b_bonker r =? b); reflexivity. }
  rewrite E.
  destruct ((b_guild r =? g) && (b_target r =? TARGET_USER_ID) && in_window window now r);
    cbn [andb]; [| exact IH].
  cbn [List.filter]. destruct (b_bonker r =? b); cbn [List.length]; rewrite IH; reflexivity.
Qed.

(** X9: [/bonktop] answers [BadWindow] exactly for a window other than
    all, day or week (after lower-casing and stripping); [NoBonks] only
    when no bonk of the target in the server falls in the window; otherwise
    a title for the window and between 1 and [max(1, min(30, limit))]
    rows, one per bonker, each with the bonker's count in the window
    (at least 1). *)
Theorem bonktop_reply_shape (g limit : Z) (window : string) (now : Z)
    (rows : list bonk_row) (reply : bonktop_reply) :
  bonktop g limit window now rows reply ->
  match reply with
  | BadWindow => valid_window (strip (str_lower window)) = false
  | NoBonks =>
      valid_window (strip (str_lower window)) = true
      /\ forall b, List.filter (bonk_matches g b (strip (str_lower window)) now) rows = []
  | BonkTop title out =>
      valid_window (strip (str_lower window)) = true
      /\ title = window_title (strip (str_lower window))
      /\ (1 <= List.length out <= Z.to_nat (Z.max 1 (Z.min 30 limit)))%nat
      /\ (Z.to_nat (Z.max 1 (Z.min 30 limit)) <= 30)%nat
      /\ List.NoDup (map fst out)
      /\ (forall b c, In (b, c) out ->
            1 <= c
            /\ c = Z.of_nat (List.length
                               (List.filter (bonk_matches g b (strip (str_lower window)) now)
                                  rows)))
  end.
Proof.
  unfold bonktop. lazy zeta.
  destruct (valid_window (strip (str_lower window))) eqn:V; cbn [negb]; [| intros ->; reflexivity].
  intros (out & (sorted & Hperm & Hs & Hto) & ->).
  set (F := List.filter (fun r => (b_guild r =? g) && (b_target r =? TARGET_USER_ID)
                                  && in_window (strip (str_lower window)) now r) rows) in *.
  assert (Hn : (1 <= Z.to_nat (Z.max 1 (Z.min 30 limit)) <= 30)%nat) by lia.
  destruct out as [| x xs] eqn:Eo.
  - split; [reflexivity |]. intros b.
    assert (Hsorted : sorted = []).
    { destruct sorted as [| y ys]; [reflexivity |].
      destruct (Z.to_nat (Z.max 1 (Z.min 30 limit))); [lia | discriminate]. }
    subst sorted. apply Permutation_sym, Permutation_nil, group_counts_nil in Hperm.
    apply length_zero_iff_nil. rewrite <- count_bonker_filter. fold F. rewrite Hperm.
    reflexivity.
  - rewrite <- Eo in *.
    split; [reflexivity |]. split; [reflexivity |].
    split; [split; [rewrite Eo; simpl; lia | rewrite Hto; apply firstn_le_length] |].
    split; [lia |].
    split.
    + rewrite Hto. apply NoDup_map_firstn.
      apply (Permutation_NoDup (Permutation_map fst Hperm)).
      rewrite group_counts_fst. apply NoDup_nodup.
    + intros b c Hin. rewrite Hto in Hin. apply in_firstn_in in Hin.
      apply (Permutation_in _ (Permutation_sym Hperm)) in Hin.
      apply group_counts_in in Hin as [Hc H1]. split; [exact H1 |].
      rewrite Hc. fold F. rewrite <- count_bonker_filter. reflexivity.
Qed.

Lemma users_of_guild_spec (g : Z) (L : ledger) :
  List.NoDup (map fst (users_of_guild g L))
  /\ (forall u p, In (u, p) (users_of_guild g L) -> points L !! (g, u) = Some p).
Proof.
  unfold users_of_guild. split.
  - rewrite map_map. simpl.
    set (F := List.filter (fun kv : Z * Z * Z => fst (fst kv) =? g) (map_to_list (points L))).
    assert (HF : List.NoDup (map fst F)).
    { apply NoDup_map_filter. apply NoDup_ListNoDup. exact (NoDup_fst_map_to_list _). }
    assert (Hm : map fst F = map (fun u => (g, u)) (map (fun kv : Z * Z * Z => snd (fst kv)) F)).
    { rewrite map_map. apply map_ext_in. intros [[g' u] p] Hin.
      unfold F in Hin. apply filter_In in Hin as [_ Hg]. simpl in *.
      apply Z.eqb_eq in Hg. subst. reflexivity. }
    rewrite Hm in HF. exact (NoDup_map_inv _ _ HF).
  - intros u p Hin. apply in_map_iff in Hin as ([[g' u'] p'] & Heq & Hin).
    simpl in Heq. injection Heq as Hu Hp. subst u' p'.
    apply filter_In in Hin as [Hin Hg]. simpl in Hg. apply Z.eqb_eq in Hg. subst g'.
    apply fin_maps.elem_of_map_to_list. apply list_elem_of_In. exact Hin.
Qed.

(** X10: a [/sandia] answer lists [min(max(1, min(30, limit)), #users)]
    rows of the server, each user once, each with the user's balance as
    stored in [smuckles_users]. *)
Theorem sandia_rows (g limit : Z) (L : ledger) (out : list (Z * Z)) :
  sandia g limit L out ->
  List.length out = Nat.min (Z.to_nat (Z.max 1 (Z.min 30 limit)))
                            (List.length (users_of_guild g L))
  /\ List.NoDup (map fst out)
  /\ (forall u p, In (u, p) out -> points L !! (g, u) = Some p).
Proof.
  intros (sorted & Hperm & _ & ->).
  destruct (users_of_guild_spec g L) as [Hnd Hin].
  split; [rewrite length_firstn, (Permutation_length Hperm); reflexivity |].
  split.
  - apply NoDup_map_firstn. exact (Permutation_NoDup (Permutation_map fst Hperm) Hnd).
  - intros u p H. apply in_firstn_in in H.
    apply Hin. exact (Permutation_in _ (Permutation_sym Hperm) H).
Qed.

(** The balances of [remove_bonks_for_user] with [count > 0] that
    [/bonkremove] reports. *)
Lemma remove_bonks_core (g bonker : Z) (window : string) (count now : Z)
    (rows rows' : list bonk_row) (n : Z) :
  List.NoDup (map b_id rows) -> 0 < count ->
  remove_bonks_for_user g bonker window count now rows rows' n ->
  n = Z.min count (Z.of_nat (List.length
                               (List.filter (bonk_matches g bonker window now) rows)))
  /\ (exists p, rows' = List.filter p rows)
  /\ List.length rows = (List.length rows' + Z.to_nat n)%nat
  /\ (forall r, In r rows -> ~ In r rows' -> bonk_matches g bonker window now r = true).
Proof.
  intros Hids Hpos Hrm. unfold remove_bonks_for_user in Hrm.
  replace (count <=? 0) with false in Hrm by (symmetry; apply Z.leb_gt; exact Hpos).
  set (M := List.filter (bonk_matches g bonker window now) rows) in *.
  destruct Hrm as (to_del & (sorted & Hperm & Hs & Hto) & Hdel).
  unfold delete_ids in Hdel. injection Hdel as Hrows' Hn.
  set (p := fun r : bonk_row => existsb (Z.eqb (b_id r)) (map b_id to_del)) in *.
  change (fun r => negb (existsb (Z.eqb (b_id r)) (map b_id to_del)))
    with (fun x => negb (p x)) in Hrows', Hn.
  assert (Hnd : List.NoDup rows) by exact (NoDup_map_inv _ _ Hids).
  assert (Hsub : forall d, In d to_del -> In d M).
  { intros d Hd. rewrite Hto in Hd. apply in_firstn_in in Hd.
    apply (Permutation_in _ (Permutation_sym Hperm)). exact Hd. }
  assert (HsubR : forall d, In d to_del -> In d rows).
  { intros d Hd. apply Hsub in Hd. apply filter_In in Hd. tauto. }
  assert (Hp : forall r, In r rows -> p r = true <-> In r to_del).
  { intros r Hr. unfold p. rewrite existsb_exists. split.
    - intros (x & Hx & Heq). apply in_map_iff in Hx as (d & <- & Hd).
      apply Z.eqb_eq in Heq.
      rewrite (in_map_inj_on b_id rows r d Hids Hr (HsubR d Hd) Heq). exact Hd.
    - intros Hd. exists (b_id r). split; [apply in_map; exact Hd | apply Z.eqb_refl]. }
  pose proof (length_filter_split p rows) as Hsplit.
  assert (Hperm2 : Permutation (List.filter p rows) to_del).
  { apply Permutation.NoDup_Permutation.
    - apply List.NoDup_filter. exact Hnd.
    - rewrite Hto. apply NoDup_firstn_of.
      apply (Permutation_NoDup Hperm). apply List.NoDup_filter. exact Hnd.
    - intros x. rewrite filter_In. split.
      + intros [Hx Hpx]. apply (Hp x Hx). exact Hpx.
      + intros Hx. split; [apply HsubR; exact Hx | apply (Hp x (HsubR x Hx)); exact Hx]. }
  apply Permutation_length in Hperm2.
  assert (Hlt : List.length to_del = Nat.min (Z.to_nat count) (List.length M)).
  { rewrite Hto, length_firstn, <- (Permutation_length Hperm). reflexivity. }
  assert (Hn' : n = Z.of_nat (List.length to_del)).
  { rewrite <- Hn. f_equal. lia. }
  split; [rewrite Hn', Hlt, Nat2Z.inj_min, Z2Nat.id by lia; reflexivity |].
  split; [exists (fun x => negb (p x)); symmetry; exact Hrows' |].
  split; [rewrite Hn', Nat2Z.id, <- Hrows'; lia |].
  intros r Hr Hn''. destruct (p r) eqn:Hpr.
  - apply (Hp r Hr) in Hpr. apply Hsub in Hpr. apply filter_In in Hpr. tauto.
  - exfalso. apply Hn''. rewrite <- Hrows'. apply filter_In. rewrite Hpr. auto.
Qed.

Lemma filter_same_length {A} (p : A -> bool) (l : list A) :
  List.length (List.filter p l) = List.length l -> List.filter p l = l.
Proof.
  induction l as [| a l IH]; simpl; [auto |].
  destruct (p a); simpl; intros H.
  - rewrite IH; [reflexivity | lia].
  - pose proof (filter_length_mono p (fun _ => true) l ltac:(auto)) as Hle.
    rewrite filter_true in Hle. lia.
Qed.

(** X11: [/bonkremove] changes nothing when the caller is not the admin,
    when the window is not all, day or week, or when [count] is outside
    1..1000; it answers "No matching" exactly when no bonk of [member]
    against the target in the server falls in the window, leaving the log
    as it is; otherwise it removes [min(count, #matching)] rows, all of
    them matching, and reports that number. *)
Theorem bonkremove_effects (actor g member count : Z) (window : string) (now : Z)
    (rows rows' : list bonk_row) (reply : bonkremove_reply) :
  List.NoDup (map b_id rows) ->
  bonkremove actor g member count window now rows rows' reply ->
  match reply with
  | RemoveNotAdmin => actor <> ADMIN_USER_ID /\ rows' = rows
  | RemoveBadWindow => valid_window (strip (str_lower window)) = false /\ rows' = rows
  | RemoveBadCount => (count <= 0 \/ 1000 < count) /\ rows' = rows
  | RemoveNone =>
      rows' = rows
      /\ List.filter (bonk_matches g member (strip (str_lower window)) now) rows = []
  | Removed n =>
      0 < n <= count /\ count <= 1000
      /\ n = Z.min count
               (Z.of_nat (List.length
                            (List.filter (bonk_matches g member (strip (str_lower window)) now)
                               rows)))
      /\ List.length rows = (List.length rows' + Z.to_nat n)%nat
      /\ (forall r, In r rows' -> In r rows)
      /\ (forall r, In r rows -> ~ In r rows' ->
                    bonk_matches g member (strip (str_lower window)) now r = true)
  end.
Proof.
  intros Hids. unfold bonkremove. lazy zeta.
  destruct (actor =? ADMIN_USER_ID) eqn:Ha; cbn [negb].
  2: { intros [-> ->]. split; [apply Z.eqb_neq; exact Ha | reflexivity]. }
  destruct (valid_window (strip (str_lower window))) eqn:V; cbn [negb].
  2: { intros [-> ->]. split; reflexivity. }
  destruct ((count <=? 0) || (1000 <? count)) eqn:Hc.
  { intros [-> ->]. split; [| reflexivity].
    apply orb_true_iff in Hc as [Hc | Hc]; [left; apply Z.leb_le, Hc | right; apply Z.ltb_lt, Hc]. }
  apply orb_false_iff in Hc as [Hc1 Hc2]. apply Z.leb_gt in Hc1. apply Z.ltb_ge in Hc2.
  intros (n & Hrm & ->).
  destruct (remove_bonks_core g member (strip (str_lower window)) count now rows rows' n
              Hids Hc1 Hrm) as (Hn & [p Hp] & Hlen & Hdel).
  destruct (n =? 0) eqn:Hz.
  - apply Z.eqb_eq in Hz. subst n. change (Z.to_nat 0) with 0%nat in Hlen.
    split.
    + rewrite Hp. apply filter_same_length. rewrite <- Hp. lia.
    + apply length_zero_iff_nil. lia.
  - apply Z.eqb_neq in Hz.
    split; [lia |]. split; [lia |]. split; [exact Hn |]. split; [exact Hlen |].
    split; [intros r Hr; rewrite Hp in Hr; apply filter_In in Hr; tauto | exact Hdel].
Qed.

(** Three bonks by user 5 and one by user 6 against the target in guild 7
    on day 100, with ids 1 to 4. *)
Definition four_bonks : list bonk_row :=
  map (fun ib => {| b_id := fst ib; b_guild := 7; b_bonker := snd ib;
                    b_target := TARGET_USER_ID; b_channel := 1; b_message := fst ib;
                    b_created := 100 * 86400 + fst ib |})
      [(1, 5); (2, 5); (3, 6); (4, 5)].

Lemma bonktop_four_bonks :
  bonktop 7 10 " Day "%string (100 * 86400 + 50) four_bonks
    (BonkTop "Today" [(5, 3); (6, 1)]).
Proof.
  unfold bonktop. lazy zeta.
  change (strip (str_lower " Day ")) with "day"%string.
  change (negb (valid_window "day")) with false. lazy iota.
  exists [(5, 3); (6, 1)]. split; [| reflexivity].
  exists [(5, 3); (6, 1)]. split; [| split].
  - vm_compute. first [apply Permutation_refl | apply perm_swap].
  - repeat constructor; simpl; lia.
  - reflexivity.
Qed.

Lemma bonktop_reply_shape_witness :
  bonktop 7 10 " Day "%string (100 * 86400 + 50) four_bonks
    (BonkTop "Today" [(5, 3); (6, 1)])
  /\ valid_window (strip (str_lower " Day ")) = true
  /\ "Today"%string = window_title (strip (str_lower " Day "))
  /\ (1 <= List.length [(5, 3); (6, 1)] <= Z.to_nat (Z.max 1 (Z.min 30 10)))%nat
  /\ (Z.to_nat (Z.max 1 (Z.min 30 10)) <= 30)%nat
  /\ List.NoDup (map fst [(5, 3); (6, 1)])
  /\ (forall b c, In (b, c) [(5, 3); (6, 1)] ->
        1 <= c
        /\ c = Z.of_nat (List.length
                           (List.filter (bonk_matches 7 b (strip (str_lower " Day "))
                                           (100 * 86400 + 50)) four_bonks))).
Proof.
  split; [exact bonktop_four_bonks |].
  exact (bonktop_reply_shape 7 10 " Day " (100 * 86400 + 50) four_bonks _ bonktop_four_bonks).
Defined.

(** Guild 7 with users 1 and 2, and a user of guild 8. *)
Definition two_users_ledger : ledger :=
  {| points := <[(7, 1) := 20]> (<[(7, 2) := 10]> (<[(8, 1) := 99]> ∅));
     txlog := []; txlog_seq := 1 |}.

Lemma sandia_two_users : sandia 7 10 two_users_ledger [(1, 20); (2, 10)].
Proof.
  exists [(1, 20); (2, 10)]. split; [| split].
  - vm_compute. first [apply Permutation_refl | apply perm_swap].
  - repeat constructor; simpl; lia.
  - reflexivity.
Qed.

Lemma sandia_rows_witness :
  sandia 7 10 two_users_ledger [(1, 20); (2, 10)]
  /\ List.length [(1, 20); (2, 10)]
     = Nat.min (Z.to_nat (Z.max 1 (Z.min 30 10)))
               (List.length (users_of_guild 7 two_users_ledger))
  /\ List.NoDup (map fst [(1, 20); (2, 10)])
  /\ (forall u p, In (u, p) [(1, 20); (2, 10)] -> points two_users_ledger !! (7, u) = Some p).
Proof.
  split; [exact sandia_two_users |].
  exact (sandia_rows 7 10 two_users_ledger _ sandia_two_users).
Defined.

(** [four_bonks] without ids 2 and 4, the two newest bonks of user 5. *)
Definition four_bonks_after : list bonk_row :=
  List.filter (fun r => (b_id r =? 1) || (b_id r =? 3)) four_bonks.

Lemma four_bonks_ids : List.NoDup (map b_id four_bonks).
Proof. vm_compute. repeat constructor; simpl; intuition discriminate. Qed.

Lemma bonkremove_two_of_four :
  bonkremove ADMIN_USER_ID 7 5 2 "day" (100 * 86400 + 50) four_bonks four_bonks_after
    (Removed 2).
Proof.
  unfold bonkremove. lazy zeta.
  change (negb (ADMIN_USER_ID =? ADMIN_USER_ID)) with false.
  change (strip (str_lower "day")) with "day"%string.
  change (negb (valid_window "day")) with false.
  change ((2 <=? 0) || (1000 <? 2)) with false. lazy iota.
  exists 2. split; [| reflexivity].
  unfold remove_bonks_for_user. change (2 <=? 0) with false. lazy iota.
  set (M := List.filter (bonk_matches 7 5 "day" (100 * 86400 + 50)) four_bonks).
  exists (firstn 2 (rev M)). split; [| vm_compute; reflexivity].
  exists (rev M). split; [apply Permutation_rev |]. split; [| reflexivity].
  match goal with
  | |- Sorted ?R ?l => let l' := eval vm_compute in l in change (Sorted R l')
  end.
  repeat constructor; simpl; lia.
Qed.

Lemma bonkremove_effects_witness :
  List.NoDup (map b_id four_bonks)
  /\ bonkremove ADMIN_USER_ID 7 5 2 "day" (100 * 86400 + 50) four_bonks four_bonks_after
       (Removed 2)
  /\ (0 < 2 <= 2 /\ 2 <= 1000
      /\ 2 = Z.min 2
               (Z.of_nat (List.length
                            (List.filter (bonk_matches 7 5 (strip (str_lower "day"))
                                            (100 * 86400 + 50)) four_bonks)))
      /\ List.length four_bonks = (List.length four_bonks_after + Z.to_nat 2)%nat
      /\ (forall r, In r four_bonks_after -> In r four_bonks)
      /\ (forall r, In r four_bonks -> ~ In r four_bonks_after ->
                    bonk_matches 7 5 (strip (str_lower "day")) (100 * 86400 + 50) r = true)).
Proof.
  split; [exact four_bonks_ids |]. split; [exact bonkremove_two_of_four |].
  exact (bonkremove_effects ADMIN_USER_ID 7 5 2 "day" (100 * 86400 + 50) four_bonks
           four_bonks_after _ four_bonks_ids bonkremove_two_of_four).
Defined.

(** ** The reminder bank *)

Lemma substring_prefix_length (m : nat) (s : string) :
  (String.length (substring 0 m s) <= m)%nat.
Proof.
  revert m; induction s as [| c s IH]; intros [| m]; simpl; try lia.
  specialize (IH m). lia.
Qed.

Lemma substring_prefix_nonempty (m : nat) (s : string) :
  s <> EmptyString -> substring 0 (S m) s <> EmptyString.
Proof. destruct s as [| c s]; [contradiction | intros _; discriminate]. Qed.

Lemma extract_reminder_note_nonempty (c note : string) :
  extract_reminder_note c = Some note -> note <> EmptyString.
Proof.
  unfold extract_reminder_note. destruct (note_after_remind c) as [n |]; [| discriminate].
  lazy zeta. destruct (String.eqb (strip_lead_word n) EmptyString) eqn:E; [discriminate |].
  intros H. injection H as <-. apply String.eqb_neq, E.
Qed.

Lemma filter_neg_filter {A} (p : A -> bool) (l : list A) :
  List.filter p (List.filter (fun x => negb (p x)) l) = [].
Proof.
  induction l as [| a l IH]; simpl; [reflexivity |].
  destruct (p a) eqn:E; simpl; [exact IH | rewrite E; exact IH].
Qed.

Lemma filter_all {A} (p : A -> bool) (l : list A) :
  (forall x, p x = true) -> List.filter p l = l.
Proof.
  intros H. induction l as [| a l IH]; simpl; [reflexivity |]. rewrite H, IH. reflexivity.
Qed.

Lemma order_desc_limit_nil {A} (key : A -> Z) (n : nat) (out : list A) :
  order_desc_limit key [] n out -> out = [].
Proof.
  intros (sorted & Hp & _ & ->). apply Permutation_nil in Hp. subst. destruct n; reflexivity.
Qed.

(** X12: the reminder part of [on_message] either leaves the reminder
    bank as it is or appends exactly one row, with the next id, the
    message's server, author, channel and id, the time of the message and
    a non-empty note of at most 500 characters; it appends one only in a
    server, for a message that mentions the bot and contains "remind" in
    any case. *)
Theorem on_message_reminder_row (up : bool) (bot_user : option Z) (now : Z)
    (m : discord_message) (R : reminder_store) :
  let R' := on_message_reminder up bot_user now m R in
  R' = R
  \/ (exists r, reminders R' = reminders R ++ [r]
        /\ reminders_seq R' = reminders_seq R + 1
        /\ rm_id r = reminders_seq R
        /\ dm_guild m = Some (rm_guild r) /\ rm_author r = dm_author m
        /\ rm_channel r = dm_channel m /\ rm_message r = dm_id m /\ rm_created r = now
        /\ rm_note r <> EmptyString /\ (String.length (rm_note r) <= 500)%nat
        /\ bot_mentioned bot_user (dm_mentions m) = true
        /\ str_contains "remind" (str_lower (default EmptyString (dm_content m))) = true).
Proof.
  unfold on_message_reminder. lazy zeta.
  destruct (dm_guild m) as [g |] eqn:Eg; [| left; reflexivity].
  unfold reminder_note_to_save.
  destruct (true && bot_mentioned bot_user (dm_mentions m)
            && str_contains "remind" (str_lower (default EmptyString (dm_content m)))) eqn:E;
    [| left; reflexivity].
  destruct (extract_reminder_note (default EmptyString (dm_content m))) as [note |] eqn:Ex;
    [| left; reflexivity].
  unfold save_reminder. destruct up; cbn [negb]; [| left; reflexivity].
  right. eexists. split; [reflexivity |].
  cbn [andb] in E. apply andb_true_iff in E as [Eb Es].
  repeat split; auto.
  - apply substring_prefix_nonempty. exact (extract_reminder_note_nonempty _ _ Ex).
  - apply substring_prefix_length.
Qed.

(** X13: [/clearmyreminders] deletes exactly the caller's reminders of the
    server and replies with their number; afterwards [/myreminders] lists
    none for the caller, and every other row stays.  Outside a server it
    deletes nothing and replies 0.  A failure of the database leaves the
    bank as it is. *)
Theorem clearmyreminders_effect (up : bool) (g : option Z) (actor : Z) (R : reminder_store) :
  match clearmyreminders up g actor R with
  | (Ok n, R') =>
      n = Z.of_nat (List.length (List.filter (fun r => guild_eq (rm_guild r) g
                                                      && (rm_author r =? actor))
                                   (reminders R)))
      /\ (forall limit out, myreminders g actor limit R' out -> out = [])
      /\ (forall r, In r (reminders R) ->
            guild_eq (rm_guild r) g && (rm_author r =? actor) = false -> In r (reminders R'))
      /\ (forall r, In r (reminders R') -> In r (reminders R))
      /\ (g = None -> n = 0 /\ R' = R)
  | (Raise e, R') => e = StorageUnavailable /\ R' = R
  end.
Proof.
  unfold clearmyreminders, delete_my_reminders.
  destruct up; cbn [negb]; [| split; reflexivity].
  unfold delete_reminders_where. lazy beta iota zeta.
  set (P := fun r => guild_eq (rm_guild r) g && (rm_author r =? actor)).
  change (fun r => negb (guild_eq (rm_guild r) g && (rm_author r =? actor)))
    with (fun x => negb (P x)).
  pose proof (length_filter_split P (reminders R)) as Hsplit.
  split; [f_equal; lia |].
  split.
  { intros limit out Hm. unfold myreminders in Hm. cbn [reminders] in Hm. fold P in Hm.
    rewrite filter_neg_filter in Hm. exact (order_desc_limit_nil _ _ _ Hm). }
  split.
  { intros r Hr Hp. cbn [reminders]. apply filter_In. unfold P. cbv beta. rewrite Hp. auto. }
  split.
  { intros r Hr. cbn [reminders] in Hr. apply filter_In in Hr. tauto. }
  intros ->.
  assert (HP : forall r, P r = false) by reflexivity.
  assert (Hn : List.filter P (reminders R) = []).
  { rewrite (filter_ext _ (fun _ => false)) by exact HP. apply filter_false. }
  split.
  { rewrite Hn in Hsplit. cbn [List.length] in Hsplit. lia. }
  destruct R as [rs seq]. cbn [reminders reminders_seq]. f_equal.
  apply filter_all. intros r. rewrite HP. reflexivity.
Qed.

(** X14: [/clearemindbank] answers the not-admin message to anyone but
    the admin and changes nothing; for the admin it deletes exactly the
    reminders of the server and replies with their number, after which
    [/remindbank] finds the bank empty, and the rows of other servers stay.
    A failure of the database leaves the bank as it is. *)
Theorem clearemindbank_effect (up : bool) (actor : Z) (g : option Z) (R : reminder_store) :
  match clearemindbank up actor g R with
  | (Ok ClearNotAdmin, R') => actor <> ADMIN_USER_ID /\ R' = R
  | (Ok (Cleared n), R') =>
      actor = ADMIN_USER_ID
      /\ n = Z.of_nat (List.length (List.filter (fun r => guild_eq (rm_guild r) g)
                                      (reminders R)))
      /\ (forall limit reply, remindbank actor g limit R' reply -> reply = BankEmpty)
      /\ (forall r, In r (reminders R) -> guild_eq (rm_guild r) g = false ->
                    In r (reminders R'))
      /\ (forall r, In r (reminders R') -> In r (reminders R))
  | (Raise e, R') => e = StorageUnavailable /\ R' = R
  end.
Proof.
  unfold clearemindbank.
  destruct (actor =? ADMIN_USER_ID) eqn:Ha; cbn [negb].
  2: { split; [apply Z.eqb_neq; exact Ha | reflexivity]. }
  unfold clear_remind_bank. destruct up; cbn [negb]; [| split; reflexivity].
  unfold delete_reminders_where. lazy beta iota zeta.
  set (Q := fun r => guild_eq (rm_guild r) g).
  change (fun r => negb (guild_eq (rm_guild r) g)) with (fun x => negb (Q x)).
  pose proof (length_filter_split Q (reminders R)) as Hsplit.
  split; [apply Z.eqb_eq; exact Ha |].
  split; [f_equal; lia |].
  split.
  { intros limit reply Hb. unfold remindbank in Hb. rewrite Ha in Hb. cbn [negb] in Hb.
    lazy zeta in Hb. destruct Hb as (out & Hod & ->). cbn [reminders] in Hod.
    fold Q in Hod. rewrite filter_neg_filter in Hod.
    rewrite (order_desc_limit_nil _ _ _ Hod). reflexivity. }
  split.
  { intros r Hr Hq. cbn [reminders]. apply filter_In. unfold Q. cbv beta. rewrite Hq. auto. }
  intros r Hr. cbn [reminders] in Hr. apply filter_In in Hr. tauto.
Qed.

(** X15: [/myreminders] lists [min(max(1, min(50, limit)), #rows)] of
    the caller's reminders in the server, newest first, and nothing else;
    outside a server the list is empty. *)
Theorem myreminders_rows (g : option Z) (actor limit : Z) (R : reminder_store)
    (out : list reminder_row) :
  myreminders g actor limit R out ->
  List.length out
  = Nat.min (Z.to_nat (Z.max 1 (Z.min 50 limit)))
      (List.length (List.filter (fun r => guild_eq (rm_guild r) g && (rm_author r =? actor))
                      (reminders R)))
  /\ (Z.to_nat (Z.max 1 (Z.min 50 limit)) <= 50)%nat
  /\ (forall r, In r out -> In r (reminders R) /\ g = Some (rm_guild r) /\ rm_author r = actor)
  /\ Sorted (fun a b => rm_created b <= rm_created a) out.
Proof.
  intros Hm. pose proof (order_desc_limit_sorted _ _ _ _ Hm) as Hs.
  destruct Hm as (sorted & Hperm & _ & ->).
  split; [rewrite length_firstn, (Permutation_length Hperm); reflexivity |].
  split; [lia |]. split; [| exact Hs].
  intros r Hr. apply in_firstn_in in Hr.
  apply (Permutation_in _ (Permutation_sym Hperm)) in Hr.
  apply filter_In in Hr as [Hr Hp]. apply andb_true_iff in Hp as [Hg Ha].
  split; [exact Hr |]. split; [| apply Z.eqb_eq, Ha].
  destruct g as [g |]; [| discriminate]. apply Z.eqb_eq in Hg. rewrite Hg. reflexivity.
Qed.

(** X16: [/remindbank] answers the not-admin message to anyone but the
    admin; for the admin it answers "empty" exactly when the server has no
    reminder, and otherwise lists [min(max(1, min(50, limit)), total)]
    of the server's reminders (between 1 and 50) with [total] the number
    of reminders of the server. *)
Theorem remindbank_reply_shape (actor : Z) (g : option Z) (limit : Z) (R : reminder_store)
    (reply : bank_reply) :
  remindbank actor g limit R reply ->
  match reply with
  | BankNotAdmin => actor <> ADMIN_USER_ID
  | BankEmpty =>
      actor = ADMIN_USER_ID
      /\ List.filter (fun r => guild_eq (rm_guild r) g) (reminders R) = []
  | BankRows out total =>
      actor = ADMIN_USER_ID
      /\ total = Z.of_nat (List.length (List.filter (fun r => guild_eq (rm_guild r) g)
                                          (reminders R)))
      /\ List.length out = Nat.min (Z.to_nat (Z.max 1 (Z.min 50 limit))) (Z.to_nat total)
      /\ (1 <= List.length out <= 50)%nat
      /\ (forall r, In r out -> In r (reminders R) /\ g = Some (rm_guild r))
  end.
Proof.
  unfold remindbank.
  destruct (actor =? ADMIN_USER_ID) eqn:Ha; cbn [negb].
  2: { intros ->. apply Z.eqb_neq. exact Ha. }
  apply Z.eqb_eq in Ha. lazy zeta.
  intros (out & (sorted & Hperm & _ & Hto) & ->).
  assert (Hn : (1 <= Z.to_nat (Z.max 1 (Z.min 50 limit)) <= 50)%nat) by lia.
  destruct out as [| x xs] eqn:Eo.
  - split; [exact Ha |].
    assert (Hsorted : sorted = []).
    { destruct sorted as [| y ys]; [reflexivity |].
      destruct (Z.to_nat (Z.max 1 (Z.min 50 limit))); [lia | discriminate]. }
    subst sorted. exact (Permutation_nil (Permutation_sym Hperm)).
  - rewrite <- Eo in *.
    split; [exact Ha |]. split; [reflexivity |].
    split; [rewrite Nat2Z.id, Hto, length_firstn, (Permutation_length Hperm); reflexivity |].
    split; [split; [rewrite Eo; simpl; lia | rewrite Hto, firstn_le_length; lia] |].
    intros r Hr. rewrite Hto in Hr. apply in_firstn_in in Hr.
    apply (Permutation_in _ (Permutation_sym Hperm)) in Hr.
    apply filter_In in Hr as [Hr Hg]. split; [exact Hr |].
    destruct g as [g |]; [| discriminate]. apply Z.eqb_eq in Hg. rewrite Hg. reflexivity.
Qed.

Definition reminder_of (i g a t : Z) : reminder_row :=
  {| rm_id := i; rm_guild := g; rm_author := a; rm_channel := 1; rm_message := i;
     rm_mentions := EmptyString; rm_note := "pay rent"; rm_created := t |}.

Definition three_reminders : reminder_store :=
  {| reminders := [reminder_of 1 7 5 10; reminder_of 2 7 6 20; reminder_of 3 8 5 30];
     reminders_seq := 4 |}.

Lemma myreminders_three :
  myreminders (Some 7) 5 10 three_reminders [reminder_of 1 7 5 10].
Proof.
  exists [reminder_of 1 7 5 10].
  split; [vm_compute; apply Permutation_refl |].
  split; [repeat constructor | reflexivity].
Qed.

Lemma remindbank_three :
  remindbank ADMIN_USER_ID (Some 7) 10 three_reminders
    (BankRows [reminder_of 2 7 6 20; reminder_of 1 7 5 10] 2).
Proof.
  unfold remindbank. rewrite Z.eqb_refl. cbn [negb]. lazy zeta.
  exists [reminder_of 2 7 6 20; reminder_of 1 7 5 10]. split; [| reflexivity].
  exists [reminder_of 2 7 6 20; reminder_of 1 7 5 10].
  split; [vm_compute; first [apply Permutation_refl | apply perm_swap] |].
  split; [repeat constructor; simpl; lia | reflexivity].
Qed.

Lemma myreminders_rows_witness :
  List.length [reminder_of 1 7 5 10] = 1%nat
  /\ (forall r, In r [reminder_of 1 7 5 10] -> rm_author r = 5).
Proof.
  pose proof (myreminders_rows (Some 7) 5 10 three_reminders _ myreminders_three)
    as (Hlen & _ & Hin & _).
  split; [reflexivity |]. intros r Hr. apply Hin, Hr.
Defined.

Lemma remindbank_reply_shape_witness :
  2 = Z.of_nat (List.length (List.filter (fun r => guild_eq (rm_guild r) (Some 7))
                                (reminders three_reminders))).
Proof.
  exact (proj1 (proj2 (remindbank_reply_shape ADMIN_USER_ID (Some 7) 10 three_reminders _
                        remindbank_three))).
Defined.

(** ** [/papolinks] *)





